(** * PPT_generator: response sanitising, bullet extraction, prompt cache
      and document classification

    Shallow embedding of [src/query_base.py] and [src/pdf_to_ppt_backup.py].
    The two files share [generate_response], [_clean_response] and
    [_extract_bullet_points] word for word; they differ in the prompts and
    the theme of [generate_preview_slide], and only the second one has
    [PDFExtractor].

    A Python [str] is a sequence of Unicode code points and is modelled as
    [list N]. *)

From Stdlib Require Import NArith Lia Ascii String.
From stdpp Require Import base list gmap.

Open Scope N_scope.

(** ** Python strings *)

Definition pystr : Type := list N.

(** ASCII literals only; other code points are written as numbers. *)
Definition py (s : string) : pystr :=
  List.map N_of_ascii (String.list_ascii_of_string s).
Arguments py : simpl never.

Definition nl : N := 10.         (* '\n' *)
Definition space : N := 32.      (* ' ' *)
Definition quote : N := 39.      (* ' *)
Definition star : N := 42.       (* '*' *)
Definition hyphen : N := 45.     (* '-' *)
Definition dot : N := 46.        (* '.' *)
Definition backslash : N := 92.  (* '\' *)
Definition letter_n : N := 110.  (* 'n' *)
Definition bullet : N := 8226.   (* U+2022 *)

(** [str.isspace] on one code point, which is also what [\s] matches in a
    [str] pattern and what [str.strip()] removes. *)
Definition is_space (c : N) : bool :=
  ((9 <=? c) && (c <=? 13)) || ((28 <=? c) && (c <=? 32))
  || (c =? 133) || (c =? 160) || (c =? 5760)
  || ((8192 <=? c) && (c <=? 8202))
  || (c =? 8232) || (c =? 8233) || (c =? 8239) || (c =? 8287)
  || (c =? 12288).

Definition nonempty (s : pystr) : bool :=
  match s with [] => false | _ => true end.

(** [s.startswith(p)] *)
Fixpoint starts_with (p s : pystr) : bool :=
  match p, s with
  | [], _ => true
  | _ :: _, [] => false
  | a :: p', b :: s' => (a =? b) && starts_with p' s'
  end.

(** [p in s] *)
Fixpoint contains (p s : pystr) : bool :=
  starts_with p s ||
  match s with
  | [] => false
  | _ :: s' => contains p s'
  end.

(** [s.split('\n')]: never the empty list. *)
Fixpoint split_nl (s : pystr) : list pystr :=
  match s with
  | [] => [[]]
  | c :: r =>
      if c =? nl then [] :: split_nl r
      else match split_nl r with
           | l :: ls => (c :: l) :: ls
           | [] => [[c]]
           end
  end.

(** ['\n'.join(ls)] *)
Fixpoint join_nl (ls : list pystr) : pystr :=
  match ls with
  | [] => []
  | l :: ls' =>
      match ls' with
      | [] => l
      | _ :: _ => l ++ nl :: join_nl ls'
      end
  end.

Fixpoint lstrip (s : pystr) : pystr :=
  match s with
  | [] => []
  | c :: r => if is_space c then lstrip r else s
  end.

Fixpoint rstrip (s : pystr) : pystr :=
  match s with
  | [] => []
  | c :: r =>
      match rstrip r with
      | [] => if is_space c then [] else [c]
      | r' => c :: r'
      end
  end.

(** [s.strip()] *)
Definition strip (s : pystr) : pystr := rstrip (lstrip s).

(** [text.replace('\\n', '\n')]: every two-character sequence backslash, n
    becomes one newline, scanning from the left without overlap. *)
Fixpoint replace_escaped_nl (s : pystr) : pystr :=
  match s with
  | [] => []
  | a :: t =>
      match t with
      | [] => [a]
      | b :: r =>
          if (a =? backslash) && (b =? letter_n)
          then nl :: replace_escaped_nl r
          else a :: replace_escaped_nl t
      end
  end.

(** ** Regular-expression substitution

    [re.sub(pattern, repl, s)] for a pattern that cannot match the empty
    string and looks at nothing before the position it starts at: the
    matcher [m] tells, for the text from the current position on, whether the
    pattern matches there, and then gives the replacement and the text after
    the match. The scan goes left to right; where the pattern does not match
    the character is copied and the scan moves one position. The fuel is the
    length of the text, which is enough since every step consumes a
    character. *)

Definition matcher : Type := pystr -> option (pystr * pystr).

Fixpoint re_sub_fuel (m : matcher) (fuel : nat) (s : pystr) : pystr :=
  match fuel with
  | O => s
  | S fuel' =>
      match s with
      | [] => []
      | c :: t =>
          match m s with
          | Some (repl, rest) => repl ++ re_sub_fuel m fuel' rest
          | None => c :: re_sub_fuel m fuel' t
          end
      end
  end.

Definition re_sub (m : matcher) (s : pystr) : pystr :=
  re_sub_fuel m (length s) s.

(** The lazy [(.*?)] followed by the closing [\*\*]: the shortest run of
    characters other than newline that is followed by two asterisks. *)
Fixpoint close_bold (s : pystr) : option (pystr * pystr) :=
  match s with
  | [] => None
  | c :: t =>
      match t with
      | [] => None
      | d :: r =>
          if (c =? star) && (d =? star) then Some ([], r)
          else if c =? nl then None
          else match close_bold t with
               | Some (inner, rest) => Some (c :: inner, rest)
               | None => None
               end
      end
  end.

(** [\*\*(.*?)\*\*] with replacement [\1] *)
Definition match_bold : matcher := fun s =>
  match s with
  | c :: d :: r => if (c =? star) && (d =? star) then close_bold r else None
  | _ => None
  end.

(** The lazy [(.*?)] followed by the closing [\*]. *)
Fixpoint close_italic (s : pystr) : option (pystr * pystr) :=
  match s with
  | [] => None
  | c :: t =>
      if c =? star then Some ([], t)
      else if c =? nl then None
      else match close_italic t with
           | Some (inner, rest) => Some (c :: inner, rest)
           | None => None
           end
  end.

(** [\*(.*?)\*] with replacement [\1] *)
Definition match_italic : matcher := fun s =>
  match s with
  | c :: r => if c =? star then close_italic r else None
  | [] => None
  end.

(** [\s{2,}] with replacement [' '] *)
Definition match_spaces : matcher := fun s =>
  match s with
  | c :: d :: r =>
      if is_space c && is_space d then Some ([space], lstrip r) else None
  | _ => None
  end.

Definition sub_bold : pystr -> pystr := re_sub match_bold.
Definition sub_italic : pystr -> pystr := re_sub match_italic.
Definition sub_spaces : pystr -> pystr := re_sub match_spaces.

(** [re.sub(r'^.*?FRAG.*$', '', text, flags=re.MULTILINE)]: [^] holds at
    the start of the text and after every newline, [.] does not cross a
    newline and [$] holds before a newline and at the end, so a match is a
    whole line that contains [frag], and it is replaced by the empty
    string. The newlines stay. *)
Definition drop_lines_with (frag : pystr) (text : pystr) : pystr :=
  join_nl (List.map (fun l => if contains frag l then [] else l)
                    (split_nl text)).

(** [re.sub(r'^[•\-\*]\s*', '', line)]: no MULTILINE flag, so the only
    possible match is at the very start. *)
Definition is_glyph (c : N) : bool :=
  (c =? bullet) || (c =? hyphen) || (c =? star).

Definition strip_bullet (line : pystr) : pystr :=
  match line with
  | c :: r => if is_glyph c then lstrip r else line
  | [] => []
  end.

(** ** Errors and results *)

Inductive pyerror : Type :=
  | DocumentOpenError     (* fitz.open / convert_from_path cannot read the file *)
  | IndexError            (* doc[0] without pages, p.runs[0] without runs *)
  | RecognitionError      (* pytesseract.image_to_string fails *)
  | TypeError             (* re.sub on a value that is not a str *)
  | ZeroDivisionError     (* i % len([]) *)
  | ValueError.           (* a text that cannot be stored in the slide *)

Inductive result (A : Type) : Type :=
  | Ok (a : A)
  | Raise (e : pyerror).
Arguments Ok {A} a.
Arguments Raise {A} e.

(** ** What the code inspects of a chat response *)

Inductive pyvalue : Type :=
  | PyStr (s : pystr)
  | PyOther.              (* any value that is not a str *)

Record message : Type := {
  msg_is_dict : bool;                  (* isinstance(m, dict) *)
  msg_key_content : option pyvalue;    (* m['content'], when 'content' in m *)
  msg_attr_content : option pyvalue;   (* m.content, when hasattr(m, 'content') *)
  msg_str : pystr                      (* str(m) *)
}.

Record response : Type := {
  resp_attr_message : option message;  (* r.message, when hasattr(r, 'message') *)
  resp_is_dict : bool;                 (* isinstance(r, dict) *)
  resp_key_message : option message;   (* r['message'], when 'message' in r *)
  resp_str : pystr                     (* str(r) *)
}.

Inductive chat_outcome : Type :=
  | ChatReturns (r : response)
  | ChatRaises.

(** The text between the first [content='] and the next quote:
    [re.search(r"content='(.*?)'", s, re.DOTALL)], group 1. *)
Fixpoint until_quote (s : pystr) : option pystr :=
  match s with
  | [] => None
  | c :: r =>
      if c =? quote then Some []
      else match until_quote r with
           | Some g => Some (c :: g)
           | None => None
           end
  end.

Fixpoint search_content (s : pystr) : option pystr :=
  match (if starts_with (py "content='") s
         then until_quote (drop 9%nat s) else None) with
  | Some g => Some g
  | None =>
      match s with
      | [] => None
      | _ :: r => search_content r
      end
  end.

(** The chain of [if]/[elif] of [generate_response], lines 61-81. *)
Definition response_payload (r : response) : pyvalue :=
  match resp_attr_message r ≫= msg_attr_content with
  | Some v => v
  | None =>
      if resp_is_dict r then
        match resp_key_message r with
        | Some m =>
            match (if msg_is_dict m then msg_key_content m else None) with
            | Some v => v
            | None =>
                match msg_attr_content m with
                | Some v => v
                | None => PyStr (msg_str m)
                end
            end
        | None =>
            match search_content (resp_str r) with
            | Some g => PyStr g
            | None => PyStr (resp_str r)
            end
        end
      else PyStr (resp_str r)
  end.

(** ** The slide assembler, as the calls made to it *)

Definition color : Type := (N * N * N)%type.

Record paragraph : Type := {
  p_text : pystr;
  p_level : N;
  p_color : option color     (* the colour of the first run, once set *)
}.

Record slide : Type := {
  slide_header : pystr;
  slide_paragraphs : list paragraph
}.

(** The presentation library is not part of the repository. Two of the
    operations that the code performs on a text can raise: storing it
    ([text_frame.text = title] in [_create_header], [p.text = bullet_text]
    in [_add_paragraph]) raises [ValueError] when the text cannot stand in
    the XML of the slide, and reading [p.runs[0]] afterwards raises
    [IndexError] when the first paragraph got no run from the text. The
    empty text gives no run. A text that is not empty and made of printable
    ASCII characters and bullets is stored in one run. For any other text
    the library decides, in a text frame and in a paragraph apart. *)
Inductive text_place : Type := InFrame | InParagraph.

Inductive text_fault : Type :=
  | NotStorable     (* storing the text raises ValueError *)
  | NoFirstRun.     (* p.runs[0] raises IndexError *)

Definition sure_char (c : N) : bool :=
  ((32 <=? c) && (c <=? 126)) || (c =? bullet).

(** ** The presentation generator *)

Inductive source_file : Type := QueryBase | PdfToPptBackup.

Record generator : Type := {
  topic : pystr;                        (* self.topic, self.text in the backup *)
  bullet_colors : list color;           (* self.theme['bullet_colors'] *)
  response_cache : gmap pystr pystr;    (* self.response_cache *)
  requests : list pystr;                (* prompts sent to ollama.chat so far *)
  slides : list slide                   (* slides added to self.prs *)
}.

Definition default_bullet_colors (f : source_file) : list color :=
  match f with
  | QueryBase => [(139, 0, 0); (26, 115, 232); (0, 0, 0)]
  | PdfToPptBackup => [(199, 198, 167)]
  end.

(** [PresentationGenerator(topic)] with the default theme. *)
Definition new_generator (f : source_file) (t : pystr) : generator :=
  {| topic := t; bullet_colors := default_bullet_colors f;
     response_cache := ∅; requests := []; slides := [] |}.

Definition with_cache (g : generator) (c : gmap pystr pystr) : generator :=
  {| topic := topic g; bullet_colors := bullet_colors g;
     response_cache := c; requests := requests g; slides := slides g |}.

Definition with_request (g : generator) (prompt : pystr) : generator :=
  {| topic := topic g; bullet_colors := bullet_colors g;
     response_cache := response_cache g;
     requests := requests g ++ [prompt]; slides := slides g |}.

Definition with_slide (g : generator) (s : slide) : generator :=
  {| topic := topic g; bullet_colors := bullet_colors g;
     response_cache := response_cache g;
     requests := requests g; slides := slides g ++ [s] |}.

Definition fallback_bullets : pystr :=
  bullet :: py " Important historical milestone" ++ nl ::
  bullet :: py " Key development in AI" ++ nl ::
  bullet :: py " Significant innovation".

Definition fallback_sentence : pystr :=
  py "The history of artificial intelligence showcases humanity's quest to create machines that can think and learn.".

Definition fallback_conclusion : pystr :=
  py "The history of AI demonstrates our continuous progress in creating intelligent systems. From early rule-based systems to modern neural networks, each advancement brings us closer to machines that can truly think.".

Definition fallback_generic : pystr :=
  py "Content generation failed. Please try again with a different prompt.".

Definition preview_prompt (f : source_file) (t : pystr) : pystr :=
  match f with
  | QueryBase =>
      py "Generate 3-5 important bullet points related to " ++ t ++
      py ". Keep each point concise (1-2 sentences). and make sure the minimum words (80 - 100) and maximum words will be (150 - 200)"
  | PdfToPptBackup =>
      py "Generate 3 - 4 (8 - 10 words) important bullet points related to " ++ t ++
      py ". Keep each point concise (1-2 short sentences ) and make sure to include at least 3 points. Do not include any other text or explanation."
  end.

Definition retry_prompt (f : source_file) (t : pystr) : pystr :=
  match f with
  | QueryBase =>
      py "Generate at least 3 key bullet points of  '" ++ t ++
      py "'.Only name the topics dont explain them. Do not include any other text or explanation"
  | PdfToPptBackup =>
      py "Generate at least 1 key bullet point from the following text: " ++ t ++
      py ". Cover the main topics related to the bullet points. Only list the topic names; do not provide any explanations or additional text."
  end.

Section Generator.

(** The Unicode character database is not part of the repository. On
    ASCII the definitions below are explicit; for the other code points
    they ask these two tables: which ones are decimal digits (category
    Nd, what [\d] matches), and what [str.lower()] makes of one, given
    the text before it (latest first) and after it. *)
Variable uni_decimal : N -> bool.
Variable uni_lower : pystr -> N -> pystr -> pystr.

(** The model collaborator: what [ollama.chat(model=self.model, ...)]
    does with a prompt, given the prompts it was sent before. *)
Variable ollama_chat : list pystr -> pystr -> chat_outcome.

(** The presentation library: what fault, if any, a text that is neither
    empty nor plainly printable meets when it is stored in a text frame or
    in a paragraph. *)
Variable pptx_fault : text_place -> pystr -> option text_fault.

Definition is_decimal (c : N) : bool :=
  if c <? 128 then (48 <=? c) && (c <=? 57) else uni_decimal c.

Fixpoint skip_digits (s : pystr) : pystr :=
  match s with
  | [] => []
  | c :: r => if is_decimal c then skip_digits r else s
  end.

(** [re.sub(r'^\d+\.\s*', '', line)] *)
Definition strip_number (line : pystr) : pystr :=
  match line with
  | [] => []
  | c :: r =>
      if is_decimal c then
        match skip_digits r with
        | d :: r' => if d =? dot then lstrip r' else line
        | [] => line
        end
      else line
  end.

Fixpoint lower_from (before s : pystr) : pystr :=
  match s with
  | [] => []
  | c :: r =>
      (if c <? 128
       then [if (65 <=? c) && (c <=? 90) then c + 32 else c]
       else uni_lower before c r)
      ++ lower_from (c :: before) r
  end.

(** [s.lower()] *)
Definition lower (s : pystr) : pystr := lower_from [] s.

(** [_clean_response], lines 103-134 of query_base.py. *)
Definition keep_line (line : pystr) : bool :=
  nonempty line
  && negb (starts_with (py "Example:") line)
  && negb (contains (py "in real-world applications") line).

Definition _clean_response (text : pystr) : pystr :=
  let text := sub_bold text in
  let text := sub_italic text in
  let text := drop_lines_with (py "model=") text in
  let text := drop_lines_with (py "created_at=") text in
  let text := drop_lines_with (py "done=") text in
  let text := drop_lines_with (py "message=") text in
  let text := replace_escaped_nl text in
  let text := sub_spaces text in
  let lines :=
    fold_left (fun lines line =>
                 let line := strip line in
                 if keep_line line then lines ++ [line] else lines)
              (split_nl text) [] in
  join_nl lines.

(** [_extract_bullet_points], lines 136-165 of query_base.py. *)
Definition _extract_bullet_points (text : pystr) : list pystr :=
  let lines := split_nl text in
  fold_left (fun bullet_points line =>
               let line := strip line in
               if nonempty line then
                 let line := strip_bullet line in
                 let line := strip_number line in
                 let line := sub_bold line in
                 let line := sub_italic line in
                 if nonempty line then bullet_points ++ [line]
                 else bullet_points
               else bullet_points)
            lines [].

(** The [except] branch of [generate_response], lines 90-101. *)
Definition fallback_response (prompt : pystr) : pystr :=
  if contains (py "bullet points") (lower prompt) then fallback_bullets
  else if contains (py "one line") (lower prompt)
          || contains (py "one clear") (lower prompt)
       then fallback_sentence
  else if contains (py "conclusion") (lower prompt) then fallback_conclusion
  else fallback_generic.

(** [_clean_response(result)] on whatever the response held: [re.sub]
    raises [TypeError] on a value that is not a [str]. *)
Definition clean_payload (v : pyvalue) : result pystr :=
  match v with
  | PyStr s => Ok (_clean_response s)
  | PyOther => Raise TypeError
  end.

(** [generate_response], lines 42-101 of query_base.py. The [try] block
    covers the call, the extraction and the cleaning; the cache is written
    at its end. *)
Definition generate_response (prompt : pystr) (g : generator)
    : pystr * generator :=
  match response_cache g !! prompt with
  | Some cached => (cached, g)
  | None =>
      let g1 := with_request g prompt in
      match ollama_chat (requests g) prompt with
      | ChatReturns r =>
          match clean_payload (response_payload r) with
          | Ok res => (res, with_cache g1 (<[prompt := res]> (response_cache g1)))
          | Raise _ => (fallback_response prompt, g1)
          end
      | ChatRaises => (fallback_response prompt, g1)
      end
  end.

(** What storing [text] and reading its first run meets: the empty text
    has no first run, a text of printable ASCII characters and bullets
    meets nothing, and the library decides for the others. *)
Definition text_fault_of (place : text_place) (text : pystr)
    : option text_fault :=
  match text with
  | [] => Some NoFirstRun
  | _ :: _ => if forallb sure_char text then None else pptx_fault place text
  end.

(** [_create_header(slide, title)], lines 167-199 of query_base.py: the
    text that the header holds afterwards, and the error raised, if any, by
    [text_frame.text = title] (line 190) or [p.runs[0]] (line 195). *)
Definition _create_header (title : pystr) : pystr * option pyerror :=
  match text_fault_of InFrame title with
  | Some NotStorable => ([], Some ValueError)
  | Some NoFirstRun => (title, Some IndexError)
  | None => (title, None)
  end.

(** [_add_paragraph(text_frame, text, color=color, level=level,
    is_bullet=is_bullet)], lines 241-275 of query_base.py: the paragraph
    as it stands afterwards, and the error raised, if any, by
    [p.text = bullet_text] (line 263), before the level is set, or by
    [p.runs[0]] (line 269), before the colour is set. *)
Definition _add_paragraph (text : pystr) (c : option color) (level : N)
    (is_bullet : bool) : paragraph * option pyerror :=
  let bullet_text := if is_bullet then bullet :: space :: text else text in
  match text_fault_of InParagraph bullet_text with
  | Some NotStorable =>
      ({| p_text := []; p_level := 0; p_color := None |}, Some ValueError)
  | Some NoFirstRun =>
      ({| p_text := bullet_text; p_level := level; p_color := None |},
       Some IndexError)
  | None =>
      ({| p_text := bullet_text; p_level := level; p_color := c |}, None)
  end.

(** The loop of [generate_preview_slide] over [enumerate(bullet_points)],
    lines 341-347: two paragraphs per point. [i % len(colors)] raises on
    an empty colour list, and either [_add_paragraph] can raise; the
    paragraphs added before that stay on the slide. *)
Fixpoint preview_paragraphs (colors : list color) (i : nat)
    (bullet_points : list pystr) : list paragraph * option pyerror :=
  match bullet_points with
  | [] => ([], None)
  | text :: rest =>
      match colors !! (i mod length colors)%nat with
      | None => ([], Some ZeroDivisionError)
      | Some c =>
          let '(p1, e1) := _add_paragraph text (Some c) 0 true in
          match e1 with
          | Some e => ([p1], Some e)
          | None =>
              let sub_bullet :=
                py "Example: " ++ text ++ py " in real-world applications" in
              let '(p2, e2) := _add_paragraph sub_bullet (Some c) 1 true in
              match e2 with
              | Some e => ([p1; p2], Some e)
              | None =>
                  let '(ps, e) := preview_paragraphs colors (S i) rest in
                  (p1 :: p2 :: ps, e)
              end
          end
      end
  end.

(** The slide of [generate_preview_slide] and of each point of
    [generate_topic_slides]: the header, then the paragraphs. *)
Definition bullet_slide (colors : list color) (title : pystr)
    (bullet_points : list pystr) : slide * option pyerror :=
  let '(header, e) := _create_header title in
  match e with
  | Some e => ({| slide_header := header; slide_paragraphs := [] |}, Some e)
  | None =>
      let '(ps, e) := preview_paragraphs colors 0 bullet_points in
      ({| slide_header := header; slide_paragraphs := ps |}, e)
  end.

(** [generate_preview_slide], lines 305-349 of query_base.py and 352-397
    of pdf_to_ppt_backup.py. The result is the returned pair, or the error
    raised, together with the generator afterwards. *)
Definition generate_preview_slide (f : source_file) (g : generator)
    : result (pystr * list pystr) * generator :=
  let title := py "PREVIEW" in
  let prompt := preview_prompt f (topic g) in
  let '(response_text, g) := generate_response prompt g in
  let bullet_points := _extract_bullet_points response_text in
  let '(bullet_points, g) :=
    if (length bullet_points <? 3)%nat then
      let prompt := retry_prompt f (topic g) in
      let '(response_text, g) := generate_response prompt g in
      let bullet_points := _extract_bullet_points response_text in
      if (length bullet_points <? 3)%nat
      then (List.map (fun point => bullet :: space :: point) bullet_points, g)
      else (bullet_points, g)
    else (bullet_points, g) in
  let '(s, e) := bullet_slide (bullet_colors g) title bullet_points in
  let g := with_slide g s in
  match e with
  | None => (Ok (title, bullet_points), g)
  | Some e => (Raise e, g)
  end.

End Generator.

(** ** The PDF extractor (pdf_to_ppt_backup.py, lines 15-48) *)

Inductive effect : Type :=
  | FitzOpen (path : pystr)          (* fitz.open(path) *)
  | ConvertFromPath (path : pystr)   (* pdf2image.convert_from_path(path) *)
  | ImageToString                    (* pytesseract.image_to_string(img) *)
  | Print (msg : pystr).

(** A computation gives its result, or the error it raised, and the
    effects it had, in order. *)
Definition io (A : Type) : Type := (result A * list effect)%type.

Definition io_ret {A} (a : A) : io A := (Ok a, []).

Definition io_bind {A B} (m : io A) (k : A -> io B) : io B :=
  match m with
  | (Ok a, t) => let '(r, t') := k a in (r, t ++ t')
  | (Raise e, t) => (Raise e, t)
  end.

Notation "'let!' x ':=' m 'in' k" := (io_bind m (fun x => k))
  (at level 10, x name, m at level 100, k at level 200).

Record PDFExtractor : Type := {
  pdf_path : pystr;
  text : pystr;
  is_scanned : bool
}.

Section Extractor.

(** The libraries the extractor calls. [fitz_open path] is the list of
    what [page.get_text("text")] gives for each page of the document, or
    [None] when the file cannot be opened; [convert_from_path] renders
    the pages; [image_to_string] is the optical recognition of one image
    and may fail. *)
Context {image : Type}.
Variable fitz_open : pystr -> option (list pystr).
Variable convert_from_path : pystr -> option (list image).
Variable image_to_string : image -> option pystr.

Definition do_fitz_open (path : pystr) : io (list pystr) :=
  match fitz_open path with
  | Some pages => (Ok pages, [FitzOpen path])
  | None => (Raise DocumentOpenError, [FitzOpen path])
  end.

Definition do_convert_from_path (path : pystr) : io (list image) :=
  match convert_from_path path with
  | Some images => (Ok images, [ConvertFromPath path])
  | None => (Raise DocumentOpenError, [ConvertFromPath path])
  end.

Definition do_image_to_string (img : image) : io pystr :=
  match image_to_string img with
  | Some s => (Ok s, [ImageToString])
  | None => (Raise RecognitionError, [ImageToString])
  end.

Definition do_print (msg : pystr) : io unit := (Ok tt, [Print msg]).

(** [is_scanned_pdf], lines 22-27. *)
Definition is_scanned_pdf (path : pystr) : io bool :=
  let! doc := do_fitz_open path in
  match doc with
  | [] => (Raise IndexError, [])
  | first_page :: _ =>
      let text := strip first_page in
      io_ret (length text =? 0)%nat
  end.

(** [extract_text_from_normal_pdf], lines 29-33. *)
Definition extract_text_from_normal_pdf (path : pystr) : io pystr :=
  let! doc := do_fitz_open path in
  io_ret (join_nl doc).

(** The list comprehension of line 38. *)
Fixpoint recognise_all (images : list image) : io (list pystr) :=
  match images with
  | [] => io_ret []
  | img :: rest =>
      let! s := do_image_to_string img in
      let! ss := recognise_all rest in
      io_ret (s :: ss)
  end.

(** [extract_text_from_scanned_pdf], lines 35-39. *)
Definition extract_text_from_scanned_pdf (path : pystr) : io pystr :=
  let! images := do_convert_from_path path in
  let! texts := recognise_all images in
  io_ret (join_nl texts).

(** [extract_text], lines 41-48. *)
Definition extract_text (path : pystr) : io pystr :=
  let! scanned := is_scanned_pdf path in
  if scanned : bool then
    let! _ := do_print (py "Detected: Scanned PDF. Using OCR.") in
    extract_text_from_scanned_pdf path
  else
    let! _ := do_print (py "Detected: Normal PDF. Extracting text.") in
    extract_text_from_normal_pdf path.

(** [PDFExtractor.__init__], lines 16-20. *)
Definition new_PDFExtractor (path : pystr) : io PDFExtractor :=
  let! scanned := is_scanned_pdf path in
  let! extracted := extract_text path in
  io_ret {| pdf_path := path; text := extracted; is_scanned := scanned |}.

End Extractor.

(** The document opens among the effects, and the opens made by
    [is_scanned_pdf] in the constructor: its own call and the one inside
    [extract_text]. *)
Definition is_open (e : effect) : bool :=
  match e with
  | FitzOpen _ | ConvertFromPath _ => true
  | _ => false
  end.

Definition count_opens (t : list effect) : nat :=
  length (List.filter is_open t).

Definition is_fitz_open (e : effect) : bool :=
  match e with
  | FitzOpen _ => true
  | _ => false
  end.

(** [fitz.open] is called by the classifier and by the extraction of a
    text-based document; a scan-based document is extracted through
    [convert_from_path], so that for it every [fitz.open] is the
    classifier's. *)
Definition count_fitz_opens (t : list effect) : nat :=
  length (List.filter is_fitz_open t).

(** A one-page document without a text layer, whose page is recognised as
    [recognised]; and a one-page document with the text [page]. *)
Definition scanned_world (recognised : pystr)
    : (pystr -> option (list pystr)) * (pystr -> option (list unit))
      * (unit -> option pystr) :=
  (fun _ => Some [[]], fun _ => Some [tt], fun _ => Some recognised).

Definition text_world (page : pystr)
    : (pystr -> option (list pystr)) * (pystr -> option (list unit))
      * (unit -> option pystr) :=
  (fun _ => Some [page], fun _ => Some [tt], fun _ => None).

(** ** The topic slides and the file name (the rest of the generator) *)

Definition topic_prompt (f : source_file) (point t : pystr) : pystr :=
  match f with
  | QueryBase =>
      py "Explain '" ++ point ++ py "' related to " ++ t ++
      py " in 4-5 bullet points. Keep each point brief."
  | PdfToPptBackup =>
      py "Explain '" ++ point ++ py "' related to " ++ t ++
      py " in (2 - 3) bullet points. Keep each point short (1-2 sentences) and make it concise."
  end.

(** The three texts that [generate_topic_slides] shows when the answer
    holds fewer than three points. *)
Definition templated_points (point : pystr) : list pystr :=
  [py "Important aspect of " ++ point;
   py "Key development related to " ++ point;
   py "Significant impact of " ++ point].

Section Deck.

Variable uni_decimal : N -> bool.
Variable uni_lower : pystr -> N -> pystr -> pystr.
Variable ollama_chat : list pystr -> pystr -> chat_outcome.
Variable pptx_fault : text_place -> pystr -> option text_fault.

(** The loop of [generate_topic_slides], lines 375-423 of query_base.py
    and 424-472 of pdf_to_ppt_backup.py, with [topics] as it stands when
    the loop reaches the points that are left. The pair is appended before
    the slide is made; when the slide raises, nothing is returned. *)
Fixpoint topic_slides_loop (f : source_file) (bullet_points : list pystr)
    (topics : list (pystr * pystr)) (g : generator)
    : result (list (pystr * pystr)) * generator :=
  match bullet_points with
  | [] => (Ok topics, g)
  | point :: rest =>
      let title := point in
      let prompt := topic_prompt f point (topic g) in
      let '(response_text, g) :=
        generate_response uni_lower ollama_chat prompt g in
      let sub_bullet_points :=
        _extract_bullet_points uni_decimal response_text in
      let sub_bullet_points :=
        if (length sub_bullet_points <? 3)%nat
        then templated_points point
        else sub_bullet_points in
      let topics := topics ++ [(title, response_text)] in
      let '(s, e) :=
        bullet_slide pptx_fault (bullet_colors g) title sub_bullet_points in
      let g := with_slide g s in
      match e with
      | None => topic_slides_loop f rest topics g
      | Some e => (Raise e, g)
      end
  end.

(** [generate_topic_slides(bullet_points)] *)
Definition generate_topic_slides (f : source_file)
    (bullet_points : list pystr) (g : generator)
    : result (list (pystr * pystr)) * generator :=
  topic_slides_loop f bullet_points [] g.

End Deck.

Section Saving.

(** [c.isalnum()] beyond ASCII is a matter of the Unicode database, and
    [self.prs.save(path)] of the presentation library and the file system:
    it writes the file or raises. *)
Variable uni_alnum : N -> bool.
Variable prs_save : pystr -> bool.

Definition is_alnum (c : N) : bool :=
  if c <? 128
  then ((48 <=? c) && (c <=? 57)) || ((65 <=? c) && (c <=? 90))
       || ((97 <=? c) && (c <=? 122))
  else uni_alnum c.

Definition underscore : N := 95.

(** ["".join(c if c.isalnum() else "_" for c in self.topic)] *)
Definition safe_topic (t : pystr) : pystr :=
  List.map (fun c => if is_alnum c then c else underscore) t.

Definition default_output_path (t : pystr) : pystr :=
  safe_topic t ++ py "_presentation.pptx".

(** [save(output_path=None)], lines 525-544 of query_base.py: [None] and
    the empty string both count as no path; the result is the path written
    to, or [None] when writing raised. *)
Definition save (output_path : option pystr) (g : generator)
    : option pystr :=
  let output_path :=
    match output_path with
    | Some path => if nonempty path then path
                   else default_output_path (topic g)
    | None => default_output_path (topic g)
    end in
  if prs_save output_path then Some output_path else None.

End Saving.

(** ** Vocabulary of the specification and test doubles *)

(** Tables that know no decimal digit beyond ASCII and lowercase nothing
    beyond ASCII; the examples below use ASCII and the bullet U+2022
    only. *)
Definition ascii_decimal_only : N -> bool := fun _ => false.
Definition ascii_lower_only : pystr -> N -> pystr -> pystr :=
  fun _ c _ => [c].

(** A model endpoint that cannot be reached. *)
Definition chat_unreachable : list pystr -> pystr -> chat_outcome :=
  fun _ _ => ChatRaises.

(** A response object whose [message.content] is [content]. *)
Definition chat_response (content : pystr) : response :=
  {| resp_attr_message :=
       Some {| msg_is_dict := false; msg_key_content := None;
               msg_attr_content := Some (PyStr content); msg_str := [] |};
     resp_is_dict := false; resp_key_message := None; resp_str := [] |}.

(** A mocked model that answers [content] to the prompt [expected] and
    cannot be reached for any other prompt. *)
Definition chat_mock (expected content : pystr)
    : list pystr -> pystr -> chat_outcome :=
  fun _ prompt =>
    if decide (prompt = expected) then ChatReturns (chat_response content)
    else ChatRaises.

(** The cache invariant as the specification words it: the second call
    with a prompt returns what the first call returned and sends nothing
    to the model. *)
Definition second_call_is_cache_hit
    (uni_lower : pystr -> N -> pystr -> pystr)
    (ollama_chat : list pystr -> pystr -> chat_outcome)
    (prompt : pystr) (g : generator) : Prop :=
  let '(r1, g1) := generate_response uni_lower ollama_chat prompt g in
  let '(r2, g2) := generate_response uni_lower ollama_chat prompt g1 in
  r2 = r1 /\ requests g2 = requests g1.

(** A model that answers [content] to every prompt. *)
Definition chat_always (content : pystr)
    : list pystr -> pystr -> chat_outcome :=
  fun _ _ => ChatReturns (chat_response content).

(** The text [• P1\n• P2\n• P3] of the end-to-end test. *)
Definition three_points : pystr :=
  bullet :: py " P1" ++ nl :: bullet :: py " P2" ++ nl :: bullet :: py " P3".

(** What a paragraph shows after the bullet glyph that [_add_paragraph]
    puts in front of it, and whether that is an [Example:] line. *)
Definition after_glyph (p : paragraph) : pystr :=
  match p_text p with
  | b :: s :: rest =>
      if (b =? bullet) && (s =? space) then rest else p_text p
  | _ => p_text p
  end.

Definition is_example_line (p : paragraph) : bool :=
  starts_with (py "Example:") (after_glyph p).

Definition no_example_lines (g : generator) : bool :=
  forallb (fun s => forallb (fun p => negb (is_example_line p))
                            (slide_paragraphs s))
          (slides g).

(** A presentation library that stores every text that is not empty, and
    one that cannot store the code point U+FFFF. *)
Definition pptx_accepts_all : text_place -> pystr -> option text_fault :=
  fun _ _ => None.


(** The end-to-end property as the specification words it. *)
Definition preview_without_examples
    (uni_decimal : N -> bool) (uni_lower : pystr -> N -> pystr -> pystr)
    (pptx_fault : text_place -> pystr -> option text_fault)
    (f : source_file) (t : pystr) : Prop :=
  let out :=
    generate_preview_slide uni_decimal uni_lower
      (chat_mock (preview_prompt f t) three_points) pptx_fault f
      (new_generator f t) in
  fst out = Ok (py "PREVIEW", [py "P1"; py "P2"; py "P3"])
  /\ no_example_lines (snd out) = true.


(** The bullet extractor as section 4.5 of the specification words it: for
    each non-empty trimmed line, strip a leading glyph with the whitespace
    after it, then a leading numbering prefix, then the emphasis markup,
    and discard the line if it became empty. *)
Definition normalise_line (uni_decimal : N -> bool) (line : pystr) : pystr :=
  sub_italic (sub_bold (strip_number uni_decimal (strip_bullet line))).


(** [re.search(pattern, s) is not None] for a pattern given by its
    matcher: the pattern matches at some position of [s]. *)
Definition matches (m : matcher) (s : pystr) : bool :=
  match m s with
  | Some _ => true
  | None => false
  end.

Fixpoint found (m : matcher) (s : pystr) : bool :=
  match s with
  | [] => false
  | _ :: t => matches m s || found m t
  end.

(** A matcher whose matches leave less text than they were given: with
    such a matcher the scan of [re_sub] reaches the end of the text before
    its fuel is spent. *)
Definition shrinking (m : matcher) : Prop :=
  forall s repl rest,
    m s = Some (repl, rest) -> (length rest < length s)%nat.

(** Emphasis markup: an asterisk and a later one on the same line, which
    is where [\*(.*?)\*] matches (and [\*\*(.*?)\*\*] matches nowhere
    else). *)
Definition has_markup (s : pystr) : bool := found match_italic s.

(** The fragments of an echoed API response that [_clean_response] looks
    for. *)
Definition echo_fragments : list pystr :=
  [py "model="; py "created_at="; py "done="; py "message="].

Definition has_echo (s : pystr) : bool :=
  existsb (fun frag => contains frag s) echo_fragments.

(** The two characters that [_clean_response] turns into a newline. *)
Definition escaped_nl : pystr := [backslash; letter_n].

(** Whether a text begins, or ends, with whitespace. *)
Definition head_space (s : pystr) : bool :=
  match s with
  | c :: _ => is_space c
  | [] => false
  end.

Fixpoint last_space (s : pystr) : bool :=
  match s with
  | [] => false
  | c :: t =>
      match t with
      | [] => is_space c
      | _ :: _ => last_space t
      end
  end.

(** The shape of what [_clean_response] returns: lines that are trimmed,
    pass the filter of its loop and hold no run of whitespace, joined by
    newlines, without echo fragment and without escaped newline. *)
Definition tidy_line (l : pystr) : Prop :=
  strip l = l /\ keep_line l = true /\ found match_spaces l = false
  /\ ~ In nl l.

Definition tidy (y : pystr) : Prop :=
  (exists ls, y = join_nl ls /\ Forall tidy_line ls)
  /\ has_echo y = false
  /\ contains escaped_nl y = false.

(** C2 as the specification words it, in its weakest reading: when a
    line of the input holds a [model=] fragment, the output holds none, and
    every line of the input without one is a line of the output. *)
Definition other_lines_survive (text : pystr) : Prop :=
  (exists l, In l (split_nl text) /\ contains (py "model=") l = true) ->
  contains (py "model=") (_clean_response text) = false
  /\ forall l, In l (split_nl text) -> contains (py "model=") l = false ->
               In l (split_nl (_clean_response text)).

(** Where [^[•\-\*]] and [^\d+\.] match: a text that begins with a
    bullet glyph, or with a numbering prefix. *)
Definition leading_glyph (s : pystr) : bool :=
  match s with
  | c :: _ => is_glyph c
  | [] => false
  end.

Definition numbering_prefix (uni_decimal : N -> bool) (s : pystr) : bool :=
  match s with
  | c :: r =>
      is_decimal uni_decimal c
      && match skip_digits uni_decimal r with
         | d :: _ => d =? dot
         | [] => false
         end
  | [] => false
  end.

(** C5 as the specification words it, in its weakest reading: no
    returned text begins with a bullet glyph or a numbering prefix. *)
Definition no_prefix_left (uni_decimal : N -> bool) (text : pystr) : Prop :=
  forall s, In s (_extract_bullet_points uni_decimal text) ->
            leading_glyph s = false /\ numbering_prefix uni_decimal s = false.

(** Plain text: not empty, and beginning with neither whitespace, a
    glyph nor a numbering prefix, and without asterisk. A line with a
    single prefix: at most one glyph with whitespace after it, then at
    most one [<digits>.] with whitespace after it, then plain text. *)
Definition plain (uni_decimal : N -> bool) (body : pystr) : Prop :=
  body <> [] /\ head_space body = false /\ leading_glyph body = false
  /\ numbering_prefix uni_decimal body = false /\ ~ In star body.

Definition glyph_part (g : pystr) : Prop :=
  g = [] \/
  exists c ws, g = c :: ws /\ is_glyph c = true /\ forallb is_space ws = true.

Definition number_part (uni_decimal : N -> bool) (n : pystr) : Prop :=
  n = [] \/
  exists d ds ws,
    n = d :: ds ++ dot :: ws
    /\ is_decimal uni_decimal d = true
    /\ forallb (is_decimal uni_decimal) ds = true
    /\ forallb is_space ws = true.

Definition singly_prefixed (uni_decimal : N -> bool) (line body : pystr)
    : Prop :=
  exists g n, line = g ++ n ++ body
              /\ glyph_part g /\ number_part uni_decimal n
              /\ plain uni_decimal body.

(** A text without whitespace in it. *)
Definition spaceless (p : pystr) : bool :=
  forallb (fun c => negb (is_space c)) p.

(** * Properties *)

(** ** Trimming *)

Lemma lstrip_nil (s : pystr) : lstrip s = [] <-> forallb is_space s = true.
Proof.
  induction s as [|c r IH]; simpl; [tauto|].
  destruct (is_space c); simpl; [exact IH|].
  split; discriminate.
Qed.

Lemma lstrip_head (s : pystr) c r : lstrip s = c :: r -> is_space c = false.
Proof.
  induction s as [|a t IH]; simpl; [discriminate|].
  destruct (is_space a) eqn:Ha; [exact IH|].
  intros [= -> _]. exact Ha.
Qed.

Lemma rstrip_cons_nonspace c r : is_space c = false -> rstrip (c :: r) <> [].
Proof.
  intros Hc. simpl. destruct (rstrip r); [rewrite Hc|]; discriminate.
Qed.

Lemma strip_nil (s : pystr) : strip s = [] <-> forallb is_space s = true.
Proof.
  unfold strip. rewrite <- lstrip_nil.
  destruct (lstrip s) as [|c r] eqn:E; [tauto|].
  split; [|discriminate].
  intros H. exfalso. revert H. apply rstrip_cons_nonspace.
  eapply lstrip_head; eassumption.
Qed.

Lemma all_space_false (s : pystr) :
  forallb is_space s = false <-> exists c, In c s /\ is_space c = false.
Proof.
  split.
  - induction s as [|c r IH]; simpl; [discriminate|].
    destruct (is_space c) eqn:Hc; simpl.
    + intros H. destruct (IH H) as (d & Hd & Hs). eauto.
    + intros _. eauto.
  - intros (c & Hin & Hc). apply not_true_iff_false. intros Hall.
    rewrite forallb_forall in Hall. apply Hall in Hin. congruence.
Qed.

(** ** The document classifier *)

Section ExtractorProperties.

Context {image : Type}.
Variable fitz_open : pystr -> option (list pystr).
Variable convert_from_path : pystr -> option (list image).
Variable image_to_string : image -> option pystr.

Lemma is_scanned_pdf_pages path first_page rest :
  fitz_open path = Some (first_page :: rest) ->
  is_scanned_pdf fitz_open path
  = (Ok (forallb is_space first_page), [FitzOpen path]).
Proof.
  intros Hopen. unfold is_scanned_pdf, do_fitz_open, io_bind, io_ret.
  rewrite Hopen. simpl. do 2 f_equal.
  destruct (forallb is_space first_page) eqn:E.
  - apply strip_nil in E. now rewrite E.
  - destruct (strip first_page) eqn:Es; [|reflexivity].
    apply strip_nil in Es. congruence.
Qed.

(** C3. For a document that opens and has a first page, [is_scanned_pdf]
    answers scan-based exactly when the text of the first page is empty
    after trimming, that is when it holds whitespace only; the answer
    does not depend on the pages after the first. *)
Theorem classifier_reads_first_page path first_page rest :
  fitz_open path = Some (first_page :: rest) ->
  fst (is_scanned_pdf fitz_open path) = Ok (forallb is_space first_page)
  /\ (forallb is_space first_page = true <-> strip first_page = [])
  /\ (forallb is_space first_page = false <->
      exists c, In c first_page /\ is_space c = false).
Proof.
  intros Hopen. rewrite (is_scanned_pdf_pages _ _ _ Hopen).
  split; [reflexivity|]. split; [symmetry; apply strip_nil|].
  apply all_space_false.
Qed.

Lemma recognise_all_opens images :
  count_opens (snd (recognise_all image_to_string images)) = 0%nat.
Proof.
  induction images as [|img rest IH]; [reflexivity|].
  simpl. unfold do_image_to_string, io_bind, io_ret in *.
  destruct (image_to_string img); [|reflexivity].
  destruct (recognise_all image_to_string rest) as [[ss|e] t]; simpl in *;
    rewrite ?app_nil_r; exact IH.
Qed.

Lemma extraction_opens_once path first_page rest :
  fitz_open path = Some (first_page :: rest) ->
  exists t,
    snd (extract_text fitz_open convert_from_path image_to_string path)
    = FitzOpen path :: t /\ count_opens t = 1%nat.
Proof.
  intros Hopen. unfold extract_text.
  rewrite (is_scanned_pdf_pages _ _ _ Hopen).
  destruct (forallb is_space first_page); cbn [io_bind do_print].
  - unfold extract_text_from_scanned_pdf, do_convert_from_path, io_bind, io_ret.
    pose proof (recognise_all_opens) as Hrec.
    destruct (convert_from_path path) as [images|]; cbn.
    + specialize (Hrec images).
      destruct (recognise_all image_to_string images) as [[ss|e] t]; cbn in *;
        eexists; (split; [reflexivity|]); cbn; rewrite ?app_nil_r; now rewrite Hrec.
    + eexists. split; reflexivity.
  - unfold extract_text_from_normal_pdf, do_fitz_open, io_bind, io_ret.
    rewrite Hopen. cbn. eexists. split; reflexivity.
Qed.

(** C9, as the code has it. One call of [is_scanned_pdf] opens the
    document once and does nothing else. The constructor makes that call
    twice, once itself and once through [extract_text], so that building
    a [PDFExtractor] opens the document twice for the classification and
    a third time for the extraction; the classification it stores in
    [is_scanned] is the answer of its own call. *)
Theorem constructor_classifies_twice path first_page rest :
  fitz_open path = Some (first_page :: rest) ->
  snd (is_scanned_pdf fitz_open path) = [FitzOpen path]
  /\ (exists t,
        snd (new_PDFExtractor fitz_open convert_from_path image_to_string path)
        = snd (is_scanned_pdf fitz_open path)
          ++ snd (is_scanned_pdf fitz_open path) ++ t
        /\ count_opens t = 1%nat)
  /\ (forall ex,
        fst (new_PDFExtractor fitz_open convert_from_path image_to_string path)
        = Ok ex ->
        is_scanned ex = forallb is_space first_page /\ pdf_path ex = path).
Proof.
  intros Hopen.
  destruct (extraction_opens_once path _ _ Hopen) as (t & Ht & Hcount).
  unfold new_PDFExtractor.
  rewrite (is_scanned_pdf_pages _ _ _ Hopen). cbn [snd io_bind].
  destruct (extract_text fitz_open convert_from_path image_to_string path)
    as [[extracted|e] t'] eqn:E; cbn in Ht; subst t'; cbn.
  - split; [reflexivity|]. split.
    + exists t. rewrite app_nil_r. split; [reflexivity | exact Hcount].
    + intros ex [= <-]. split; reflexivity.
  - split; [reflexivity|]. split.
    + exists t. split; [reflexivity | exact Hcount].
    + intros ex [=].
Qed.

End ExtractorProperties.

(** C3 at a one-page document holding the text [hello]. *)
Lemma classifier_reads_first_page_witness :
  fst (is_scanned_pdf (fst (fst (text_world (py "hello")))) (py "a.pdf"))
  = Ok false.
Proof.
  apply (classifier_reads_first_page
           (fst (fst (text_world (py "hello")))) (py "a.pdf") (py "hello") []).
  reflexivity.
Defined.

(** C9 as the spec states it fails: on a one-page scan, building the
    extractor calls [fitz.open] twice, both times to classify. *)
Lemma constructor_two_classification_opens :
  let '(fitz_open, convert, ocr) := scanned_world (py "hello") in
  snd (new_PDFExtractor fitz_open convert ocr (py "a.pdf"))
  = [FitzOpen (py "a.pdf"); FitzOpen (py "a.pdf");
     Print (py "Detected: Scanned PDF. Using OCR.");
     ConvertFromPath (py "a.pdf"); ImageToString]
  /\ count_fitz_opens
       (snd (new_PDFExtractor fitz_open convert ocr (py "a.pdf"))) <> 1%nat.
Proof.
  vm_compute. split; [reflexivity | discriminate].
Qed.

Lemma constructor_classifies_twice_witness :
  let '(fitz_open, convert, ocr) := text_world (py "hello") in
  snd (is_scanned_pdf fitz_open (py "a.pdf")) = [FitzOpen (py "a.pdf")].
Proof.
  apply (constructor_classifies_twice
           (fst (fst (text_world (py "hello"))))
           (snd (fst (text_world (py "hello"))))
           (snd (text_world (py "hello")))
           (py "a.pdf") (py "hello") []).
  reflexivity.
Defined.

(** ** The content requester *)

Section GeneratorProperties.

Variable uni_decimal : N -> bool.
Variable uni_lower : pystr -> N -> pystr -> pystr.
Variable ollama_chat : list pystr -> pystr -> chat_outcome.
Variable pptx_fault : text_place -> pystr -> option text_fault.

Local Abbreviation respond := (generate_response uni_lower ollama_chat).
Local Abbreviation fallback := (fallback_response uni_lower).

Lemma generate_response_hit prompt g cached :
  response_cache g !! prompt = Some cached ->
  respond prompt g = (cached, g).
Proof. intros H. unfold generate_response. now rewrite H. Qed.

Lemma generate_response_raises prompt g :
  response_cache g !! prompt = None ->
  ollama_chat (requests g) prompt = ChatRaises ->
  respond prompt g
  = (fallback prompt, with_request g prompt).
Proof.
  intros Hmiss Hraise. unfold generate_response.
  now rewrite Hmiss, Hraise.
Qed.

Lemma generate_response_returns prompt g r s :
  response_cache g !! prompt = None ->
  ollama_chat (requests g) prompt = ChatReturns r ->
  response_payload r = PyStr s ->
  respond prompt g
  = (_clean_response s,
     with_cache (with_request g prompt)
                (<[prompt := _clean_response s]> (response_cache g))).
Proof.
  intros Hmiss Hret Hpay. unfold generate_response.
  now rewrite Hmiss, Hret, Hpay.
Qed.

Lemma generate_response_frame prompt g :
  topic (snd (respond prompt g)) = topic g
  /\ bullet_colors (snd (respond prompt g)) = bullet_colors g
  /\ slides (snd (respond prompt g)) = slides g.
Proof.
  unfold generate_response.
  destruct (response_cache g !! prompt); [now cbn|].
  destruct (ollama_chat (requests g) prompt) as [r|]; [|now cbn].
  destruct (clean_payload (response_payload r)); now cbn.
Qed.

(** C4. When the prompt is not in the cache and the call to the model
    raises, [generate_response] returns (it raises nothing) one of the
    four fixed texts, chosen by what the lowercased prompt contains:
    [bullet points] first, then [one line] or [one clear], then
    [conclusion], and the generic failure message otherwise. *)
Theorem failure_gives_fallback prompt g :
  response_cache g !! prompt = None ->
  ollama_chat (requests g) prompt = ChatRaises ->
  let answer := fst (respond prompt g) in
  let has kw := contains (py kw) (lower uni_lower prompt) in
  (has "bullet points"%string = true -> answer = fallback_bullets)
  /\ (has "bullet points"%string = false ->
      has "one line"%string = true \/ has "one clear"%string = true ->
      answer = fallback_sentence)
  /\ (has "bullet points"%string = false ->
      has "one line"%string = false -> has "one clear"%string = false ->
      has "conclusion"%string = true -> answer = fallback_conclusion)
  /\ (has "bullet points"%string = false ->
      has "one line"%string = false -> has "one clear"%string = false ->
      has "conclusion"%string = false -> answer = fallback_generic).
Proof.
  intros Hmiss Hraise.
  rewrite (generate_response_raises _ _ Hmiss Hraise). cbn [fst].
  unfold fallback_response.
  repeat split.
  - intros ->. reflexivity.
  - intros -> [-> | ->]; [reflexivity|]. now rewrite orb_true_r.
  - intros -> -> -> ->. reflexivity.
  - intros -> -> -> ->. reflexivity.
Qed.

(** C1, as the code has it. A result that came from the cache or from
    a response of the model is in the cache after the first call: the
    second call returns the same text and leaves the generator as it was,
    so it sends nothing. A fallback text is returned without being
    cached: after a call that raised, the cache is as before and the
    second call sends the prompt to the model again. *)
Theorem second_call_same_prompt prompt g :
  let r1 := fst (respond prompt g) in
  let g1 := snd (respond prompt g) in
  (is_Some (response_cache g !! prompt)
   \/ (exists r s, ollama_chat (requests g) prompt = ChatReturns r
                   /\ response_payload r = PyStr s) ->
   respond prompt g1 = (r1, g1))
  /\ (response_cache g !! prompt = None ->
      ollama_chat (requests g) prompt = ChatRaises ->
      r1 = fallback prompt
      /\ response_cache g1 = response_cache g
      /\ requests g1 = requests g ++ [prompt]
      /\ requests (snd (respond prompt g1))
         = requests g ++ [prompt; prompt]).
Proof.
  cbn zeta. split.
  - destruct (response_cache g !! prompt) as [cached|] eqn:Hc.
    + intros _. rewrite (generate_response_hit _ _ _ Hc). cbn.
      apply generate_response_hit, Hc.
    + intros [[x [=]] | (r & s & Hret & Hpay)].
      rewrite (generate_response_returns _ _ _ _ Hc Hret Hpay). cbn.
      apply generate_response_hit. cbn. apply lookup_insert_eq.
  - intros Hc Hraise. rewrite (generate_response_raises _ _ Hc Hraise). cbn.
    repeat split.
    unfold generate_response. cbn. rewrite Hc.
    destruct (ollama_chat (requests g ++ [prompt]) prompt) as [r|]; cbn.
    + destruct (clean_payload (response_payload r)); cbn;
        now rewrite <- app_assoc.
    + now rewrite <- app_assoc.
Qed.

Local Abbreviation extract := (_extract_bullet_points uni_decimal).

Lemma extract_loop lines acc :
  fold_left (fun bullet_points line =>
               let line := strip line in
               if nonempty line then
                 let line := strip_bullet line in
                 let line := strip_number uni_decimal line in
                 let line := sub_bold line in
                 let line := sub_italic line in
                 if nonempty line then bullet_points ++ [line]
                 else bullet_points
               else bullet_points)
            lines acc
  = acc ++ List.filter nonempty
             (List.map (normalise_line uni_decimal)
                (List.filter nonempty (List.map strip lines))).
Proof.
  revert acc. induction lines as [|line rest IH]; intros acc.
  - cbn. now rewrite app_nil_r.
  - cbn [fold_left List.map List.filter]. rewrite IH.
    destruct (nonempty (strip line)); [|reflexivity].
    cbn [List.map List.filter]. unfold normalise_line at 2.
    destruct (nonempty _); [|reflexivity].
    now rewrite <- app_assoc.
Qed.




Lemma preview_paragraphs_accepted colors i bullet_points :
  colors <> [] ->
  (forall t, In t bullet_points ->
     text_fault_of pptx_fault InParagraph (bullet :: space :: t) = None
     /\ text_fault_of pptx_fault InParagraph
          (bullet :: space :: py "Example: " ++ t
             ++ py " in real-world applications") = None) ->
  snd (preview_paragraphs pptx_fault colors i bullet_points) = None
  /\ length (fst (preview_paragraphs pptx_fault colors i bullet_points))
     = (2 * length bullet_points)%nat
  /\ List.map p_text (fst (preview_paragraphs pptx_fault colors i bullet_points))
     = flat_map
         (fun text =>
            [bullet :: space :: text;
             bullet :: space :: py "Example: " ++ text
               ++ py " in real-world applications"])
         bullet_points.
Proof.
  intros Hne. revert i.
  induction bullet_points as [|b rest IH]; intros i Hok; [now cbn|].
  cbn [preview_paragraphs].
  destruct (lookup_lt_is_Some_2 colors (i mod length colors)) as [c Hc].
  { apply Nat.mod_upper_bound. destruct colors; [congruence | discriminate]. }
  rewrite Hc. destruct (Hok b) as [H1 H2]; [now left|].
  unfold _add_paragraph. rewrite H1, H2.
  destruct (IH (S i)) as (He & Hlen & Htext).
  { intros t Ht. apply Hok. now right. }
  destruct (preview_paragraphs pptx_fault colors (S i) rest) as [ps e].
  cbn [fst snd length List.map flat_map app p_text] in *.
  rewrite Hlen, Htext. repeat split; [exact He | lia].
Qed.

Lemma bullet_slide_accepted colors title bullet_points :
  text_fault_of pptx_fault InFrame title = None ->
  colors <> [] ->
  (forall t, In t bullet_points ->
     text_fault_of pptx_fault InParagraph (bullet :: space :: t) = None
     /\ text_fault_of pptx_fault InParagraph
          (bullet :: space :: py "Example: " ++ t
             ++ py " in real-world applications") = None) ->
  bullet_slide pptx_fault colors title bullet_points
  = ({| slide_header := title;
        slide_paragraphs :=
          fst (preview_paragraphs pptx_fault colors 0 bullet_points) |},
     None).
Proof.
  intros Htitle Hcol Hok. unfold bullet_slide, _create_header.
  rewrite Htitle.
  destruct (preview_paragraphs_accepted colors 0 bullet_points Hcol Hok)
    as (He & _).
  destruct (preview_paragraphs pptx_fault colors 0 bullet_points) as [ps e].
  cbn in He. now subst e.
Qed.



End GeneratorProperties.

Lemma clean_three_points : _clean_response three_points = three_points.
Proof. vm_compute. reflexivity. Qed.

Lemma extract_three_points uni_decimal :
  _extract_bullet_points uni_decimal three_points
  = [py "P1"; py "P2"; py "P3"].
Proof. vm_compute. reflexivity. Qed.

(** C6, as the code has it. With a model that answers [• P1\n• P2\n• P3]
    to the preview prompt, [generate_preview_slide] returns the three
    points [P1], [P2], [P3], and the slide it adds shows, for each point,
    the point behind a bullet glyph and below it, one level in, a line
    [Example: <point> in real-world applications] that the function writes
    itself. *)
Theorem preview_of_three_points uni_decimal uni_lower pptx_fault f t :
  let out :=
    generate_preview_slide uni_decimal uni_lower
      (chat_mock (preview_prompt f t) three_points) pptx_fault f
      (new_generator f t) in
  fst out = Ok (py "PREVIEW", [py "P1"; py "P2"; py "P3"])
  /\ List.map (fun s => (slide_header s,
                         List.map (fun p => (p_text p, p_level p))
                                  (slide_paragraphs s)))
              (slides (snd out))
     = [(py "PREVIEW",
         [(bullet :: py " P1", 0);
          (bullet :: py " Example: P1 in real-world applications", 1);
          (bullet :: py " P2", 0);
          (bullet :: py " Example: P2 in real-world applications", 1);
          (bullet :: py " P3", 0);
          (bullet :: py " Example: P3 in real-world applications", 1)])].
Proof.
  cbn zeta. unfold generate_preview_slide. cbn [topic new_generator].
  erewrite generate_response_returns;
    [ | apply lookup_empty
      | unfold chat_mock; rewrite decide_True by reflexivity; reflexivity
      | reflexivity ].
  rewrite clean_three_points, extract_three_points.
  destruct f; split; reflexivity.
Qed.

(** C6 as the spec states it fails: the slide carries the [Example:]
    lines that the function adds under each point. *)
Lemma preview_slide_has_example_lines :
  ~ preview_without_examples ascii_decimal_only ascii_lower_only
      pptx_accepts_all QueryBase (py "AI").
Proof.
  unfold preview_without_examples. intros [_ H].
  vm_compute in H. discriminate.
Qed.



(** C4 on a prompt that asks for bullet points and for a conclusion: the
    bullet points win. *)
Lemma failure_gives_fallback_witness :
  fst (generate_response ascii_lower_only chat_unreachable
         (py "Write a Conclusion in BULLET points")
         (new_generator QueryBase (py "AI")))
  = fallback_bullets.
Proof.
  apply (failure_gives_fallback ascii_lower_only chat_unreachable
           (py "Write a Conclusion in BULLET points")
           (new_generator QueryBase (py "AI"))).
  - reflexivity.
  - reflexivity.
  - vm_compute. reflexivity.
Defined.

(** C1 as the spec states it fails: with an endpoint that cannot be
    reached, the second call with the same prompt sends it again. *)
Lemma fallback_is_not_cached :
  ~ second_call_is_cache_hit ascii_lower_only chat_unreachable
      (py "hello") (new_generator QueryBase (py "AI")).
Proof.
  unfold second_call_is_cache_hit.
  rewrite generate_response_raises by reflexivity.
  rewrite generate_response_raises by reflexivity.
  intros [_ H]. vm_compute in H. discriminate.
Qed.

(** C1 at a model that answers [Hi  there], where the second call is a
    hit, and at an endpoint that cannot be reached, where the cache stays
    empty. *)
Lemma second_call_same_prompt_witness :
  (let chat := chat_mock (py "hello") (py "Hi  there") in
   let g := new_generator QueryBase (py "AI") in
   let g1 := snd (generate_response ascii_lower_only chat (py "hello") g) in
   generate_response ascii_lower_only chat (py "hello") g1
   = (py "Hi there", g1))
  /\ (let g := new_generator QueryBase (py "AI") in
      let g1 := snd (generate_response ascii_lower_only chat_unreachable
                       (py "hello") g) in
      response_cache g1 = response_cache g).
Proof.
  split.
  - apply (second_call_same_prompt ascii_lower_only
             (chat_mock (py "hello") (py "Hi  there"))
             (py "hello") (new_generator QueryBase (py "AI"))).
    right. exists (chat_response (py "Hi  there")), (py "Hi  there").
    split; reflexivity.
  - apply (second_call_same_prompt ascii_lower_only chat_unreachable
             (py "hello") (new_generator QueryBase (py "AI")));
      reflexivity.
Defined.

(** ** Substrings, lines and joins *)

Lemma starts_with_app_l (p a b : pystr) :
  starts_with p a = true -> starts_with p (a ++ b) = true.
Proof.
  revert a. induction p as [|x p IH]; intros [|c a]; cbn; try easy.
  rewrite !andb_true_iff. intros [-> H]. auto.
Qed.

Lemma contains_cons (p s : pystr) c :
  contains p s = true -> contains p (c :: s) = true.
Proof. intros H. cbn [contains]. rewrite H. apply orb_true_r. Qed.

Lemma contains_app_r (p a b : pystr) :
  contains p b = true -> contains p (a ++ b) = true.
Proof.
  intros H. induction a as [|c a IH]; [exact H|].
  apply contains_cons, IH.
Qed.

Lemma contains_app_l (p a b : pystr) :
  contains p a = true -> contains p (a ++ b) = true.
Proof.
  induction a as [|c a IH]; cbn [contains app].
  - rewrite orb_false_r. destruct p; [|discriminate].
    intros _. destruct b; reflexivity.
  - rewrite !orb_true_iff. intros [H | H].
    + left. apply (starts_with_app_l p (c :: a) b H).
    + right. auto.
Qed.

Lemma contains_nil (p : pystr) : p <> [] -> contains p [] = false.
Proof. destruct p; [congruence | reflexivity]. Qed.

Lemma starts_with_space (p : pystr) w s :
  p <> [] -> spaceless p = true -> is_space w = true ->
  starts_with p (w :: s) = false.
Proof.
  destruct p as [|x p]; [congruence|]. intros _. cbn.
  rewrite andb_true_iff, negb_true_iff. intros [Hx _] Hw.
  destruct (N.eqb_spec x w) as [->|]; [congruence | reflexivity].
Qed.

Lemma starts_with_app_sep (p a b : pystr) w :
  spaceless p = true -> is_space w = true ->
  starts_with p (a ++ w :: b) = true -> starts_with p a = true.
Proof.
  intros Hp Hw. revert a Hp.
  induction p as [|x p IH]; intros a Hp; [destruct a; reflexivity|].
  destruct a as [|c a].
  - cbn [app]. rewrite (starts_with_space (x :: p) w b); [easy | easy | exact Hp | exact Hw].
  - cbn in *. apply andb_true_iff in Hp as [_ Hp].
    rewrite !andb_true_iff. intros [-> H]. auto.
Qed.

Lemma contains_sep (p a b : pystr) w :
  p <> [] -> spaceless p = true -> is_space w = true ->
  contains p (a ++ w :: b) = true ->
  contains p a = true \/ contains p b = true.
Proof.
  intros Hne Hp Hw. induction a as [|c a IH]; cbn [app contains].
  - rewrite (starts_with_space p w b Hne Hp Hw). cbn. auto.
  - rewrite !orb_true_iff. intros [H | H].
    + left. left. apply (starts_with_app_sep p (c :: a) b w Hp Hw H).
    + destruct (IH H); auto.
Qed.

Lemma split_nl_cons (s : pystr) : exists l ls, split_nl s = l :: ls.
Proof.
  induction s as [|c r (l & ls & E)]; cbn; [eauto|].
  destruct (c =? nl); [eauto|]. rewrite E. eauto.
Qed.

Lemma join_split (s : pystr) : join_nl (split_nl s) = s.
Proof.
  induction s as [|c r IH]; [reflexivity|]. cbn [split_nl].
  destruct (split_nl_cons r) as (l & ls & E). rewrite E in *.
  destruct (N.eqb_spec c nl) as [->|Hc].
  - cbn. now rewrite <- IH.
  - cbn in *. destruct ls; rewrite <- IH; reflexivity.
Qed.

Lemma split_nl_no_newline (s l : pystr) :
  In l (split_nl s) -> ~ In nl l.
Proof.
  revert l. induction s as [|c r IH]; intros l; cbn [split_nl].
  - intros [<- | []]. auto.
  - destruct (split_nl_cons r) as (l0 & ls & E). rewrite E in *.
    destruct (N.eqb_spec c nl) as [->|Hc].
    + intros [<- | H]; [auto | apply IH, H].
    + intros [<- | H].
      * intros [Heq | Hin]; [congruence|]. apply (IH l0); [now left | exact Hin].
      * apply IH. now right.
Qed.

Lemma contains_join (p l : pystr) ls :
  In l ls -> contains p l = true -> contains p (join_nl ls) = true.
Proof.
  induction ls as [|l0 ls IH]; [easy|].
  intros [<- | Hin] Hc; cbn [join_nl]; destruct ls as [|l1 ls].
  - exact Hc.
  - now apply contains_app_l.
  - destruct Hin.
  - apply contains_app_r, contains_cons, IH; assumption.
Qed.

Lemma contains_join_inv (p : pystr) ls :
  p <> [] -> spaceless p = true ->
  contains p (join_nl ls) = true -> exists l, In l ls /\ contains p l = true.
Proof.
  intros Hne Hp. induction ls as [|l0 ls IH]; cbn [join_nl].
  - now rewrite contains_nil.
  - destruct ls as [|l1 ls].
    + intros H. exists l0. split; [now left | exact H].
    + intros H.
      destruct (contains_sep p l0 _ nl Hne Hp eq_refl H) as [H' | H'].
      * exists l0. split; [now left | exact H'].
      * destruct (IH H') as (l & Hin & Hl). exists l. split; [now right | exact Hl].
Qed.

Lemma contains_line (p l s : pystr) :
  In l (split_nl s) -> contains p l = true -> contains p s = true.
Proof.
  intros Hin Hc. rewrite <- (join_split s). eapply contains_join; eassumption.
Qed.

(** ** Removing echoed lines *)

Lemma drop_lines_monotone (p q t : pystr) :
  p <> [] -> spaceless p = true ->
  contains p (drop_lines_with q t) = true -> contains p t = true.
Proof.
  intros Hne Hp H. unfold drop_lines_with in H.
  apply contains_join_inv in H as (l' & Hin & Hl'); [|assumption..].
  apply in_map_iff in Hin as (l & <- & Hin).
  destruct (contains q l).
  - now rewrite contains_nil in Hl'.
  - eapply contains_line; eassumption.
Qed.

Lemma drop_lines_removes (q t : pystr) :
  q <> [] -> spaceless q = true ->
  contains q (drop_lines_with q t) = false.
Proof.
  intros Hne Hq. apply not_true_iff_false. intros H.
  unfold drop_lines_with in H.
  apply contains_join_inv in H as (l' & Hin & Hl'); [|assumption..].
  apply in_map_iff in Hin as (l & <- & Hin).
  destruct (contains q l) eqn:E.
  - now rewrite contains_nil in Hl'.
  - congruence.
Qed.

Lemma drop_lines_id (q t : pystr) :
  contains q t = false -> drop_lines_with q t = t.
Proof.
  intros H. unfold drop_lines_with.
  rewrite <- (join_split t) at 2. f_equal.
  rewrite <- (map_id (split_nl t)) at 2.
  apply map_ext_in. intros l Hin.
  destruct (contains q l) eqn:E; [|reflexivity].
  rewrite (contains_line q l t Hin E) in H. discriminate.
Qed.

(** ** Escaped newlines *)

Lemma pystr_ind2 (P : pystr -> Prop) :
  P [] -> (forall a, P [a]) ->
  (forall a b r, P r -> P (b :: r) -> P (a :: b :: r)) ->
  forall s, P s.
Proof.
  intros H0 H1 H2 s.
  assert (H : P s /\ forall a, P (a :: s)); [|apply H].
  induction s as [|b r [IHr IHbr]]; split; auto.
Qed.

Lemma replace_escaped_nl_step a b r :
  replace_escaped_nl (a :: b :: r)
  = if (a =? backslash) && (b =? letter_n)
    then nl :: replace_escaped_nl r
    else a :: replace_escaped_nl (b :: r).
Proof. reflexivity. Qed.

Lemma starts_with_replace (p s : pystr) :
  spaceless p = true ->
  starts_with p (replace_escaped_nl s) = true -> starts_with p s = true.
Proof.
  revert p. induction s as [| a | a b r IHr IHbr] using pystr_ind2;
    intros p Hp; [easy | easy |].
  destruct p as [|x p]; [reflexivity|].
  rewrite replace_escaped_nl_step.
  destruct ((a =? backslash) && (b =? letter_n)).
  - now rewrite (starts_with_space (x :: p) nl _) by easy.
  - cbn [starts_with]. rewrite !andb_true_iff. intros [-> H].
    split; [reflexivity|]. apply IHbr; [|exact H].
    cbn in Hp. now apply andb_true_iff in Hp.
Qed.

Lemma contains_replace (p s : pystr) :
  p <> [] -> spaceless p = true ->
  contains p (replace_escaped_nl s) = true -> contains p s = true.
Proof.
  intros Hne Hp.
  induction s as [| a | a b r IHr IHbr] using pystr_ind2; [easy | easy |].
  intros H.
  assert (Hs := starts_with_replace p (a :: b :: r) Hp).
  rewrite replace_escaped_nl_step in *.
  destruct ((a =? backslash) && (b =? letter_n)).
  - cbn [contains] in H.
    rewrite (starts_with_space p nl _ Hne Hp eq_refl) in H.
    do 2 apply contains_cons. apply IHr, H.
  - cbn [contains] in H. apply orb_true_iff in H as [H | H].
    + cbn [contains]. now rewrite (Hs H).
    + apply contains_cons, IHbr, H.
Qed.

Lemma replace_head (s : pystr) c r :
  replace_escaped_nl s = c :: r -> c = nl \/ exists t, s = c :: t.
Proof.
  destruct s as [|a [|b t]]; cbn; [easy | |].
  - intros [= -> _]. eauto.
  - destruct ((a =? backslash) && (b =? letter_n)); intros [= <- _]; eauto.
Qed.

Lemma replace_no_escape (s : pystr) :
  contains escaped_nl (replace_escaped_nl s) = false.
Proof.
  induction s as [| a | a b r IHr IHbr] using pystr_ind2.
  - reflexivity.
  - cbn. now rewrite !andb_false_r.
  - rewrite replace_escaped_nl_step.
    destruct ((a =? backslash) && (b =? letter_n)) eqn:E.
    + cbn [contains]. rewrite IHr. reflexivity.
    + cbn [contains]. rewrite IHbr, orb_false_r.
      cbn [starts_with escaped_nl].
      destruct (replace_escaped_nl (b :: r)) as [|c t] eqn:Er;
        [now rewrite andb_false_r|].
      rewrite andb_true_r.
      destruct (N.eqb_spec backslash a) as [<-|]; [|reflexivity].
      destruct (N.eqb_spec letter_n c) as [<-|]; [|reflexivity].
      exfalso. apply replace_head in Er as [Hc | (t' & [= -> _])];
        [discriminate Hc | discriminate E].
Qed.

Lemma replace_id (s : pystr) :
  contains escaped_nl s = false -> replace_escaped_nl s = s.
Proof.
  induction s as [| a | a b r IHr IHbr] using pystr_ind2; [easy | easy |].
  intros H. cbn [contains] in H. apply orb_false_iff in H as [Hs Hc].
  rewrite replace_escaped_nl_step.
  destruct ((a =? backslash) && (b =? letter_n)) eqn:E.
  - apply andb_true_iff in E as [Ea Eb].
    apply N.eqb_eq in Ea, Eb. subst. discriminate Hs.
  - f_equal. apply IHbr, Hc.
Qed.

(** ** Trimmed lines *)

Lemma lstrip_suffix (s : pystr) : exists w, s = w ++ lstrip s.
Proof.
  induction s as [|c r (w & IH)]; [now exists []|]. cbn.
  destruct (is_space c).
  - exists (c :: w). cbn. now f_equal.
  - now exists [].
Qed.

Lemma rstrip_prefix (s : pystr) : exists w, s = rstrip s ++ w.
Proof.
  induction s as [|c r (w & IH)]; [now exists []|]. cbn.
  destruct (rstrip r) as [|d r'].
  - cbn in IH. subst w. destruct (is_space c).
    + now exists (c :: r).
    + now exists r.
  - exists w. cbn. now f_equal.
Qed.

Lemma length_lstrip (s : pystr) : (length (lstrip s) <= length s)%nat.
Proof.
  destruct (lstrip_suffix s) as (w & E). rewrite E at 2.
  rewrite length_app. lia.
Qed.

Lemma contains_lstrip (p s : pystr) :
  contains p (lstrip s) = true -> contains p s = true.
Proof.
  intros H. destruct (lstrip_suffix s) as (w & E). rewrite E.
  now apply contains_app_r.
Qed.

Lemma contains_strip (p s : pystr) :
  contains p (strip s) = true -> contains p s = true.
Proof.
  intros H. apply contains_lstrip. unfold strip in H.
  destruct (rstrip_prefix (lstrip s)) as (w & E). rewrite E.
  now apply contains_app_l.
Qed.

Lemma In_strip (s : pystr) c : In c (strip s) -> In c s.
Proof.
  intros H. unfold strip in H.
  destruct (lstrip_suffix s) as (w & E). rewrite E.
  destruct (rstrip_prefix (lstrip s)) as (w' & E'). rewrite E'.
  apply in_or_app. right. apply in_or_app. now left.
Qed.

Lemma head_lstrip (s : pystr) : head_space (lstrip s) = false.
Proof.
  induction s as [|c r IH]; [reflexivity|]. cbn.
  destruct (is_space c) eqn:E; [exact IH|]. cbn. exact E.
Qed.

Lemma lstrip_id (s : pystr) : head_space s = false -> lstrip s = s.
Proof. destruct s as [|c r]; cbn; [easy|]. now intros ->. Qed.

Lemma head_rstrip (s : pystr) :
  head_space s = false -> head_space (rstrip s) = false.
Proof.
  destruct s as [|c r]; cbn; [easy|]. intros Hc.
  destruct (rstrip r); cbn; now rewrite Hc.
Qed.

Lemma rstrip_rstrip (s : pystr) : rstrip (rstrip s) = rstrip s.
Proof.
  induction s as [|c r IH]; [reflexivity|]. cbn.
  destruct (rstrip r) as [|d r'] eqn:E.
  - destruct (is_space c) eqn:Hc; cbn; [reflexivity|]. now rewrite Hc.
  - cbn [rstrip] in *. now rewrite IH.
Qed.

Lemma head_strip (s : pystr) : head_space (strip s) = false.
Proof. apply head_rstrip, head_lstrip. Qed.

Lemma strip_strip (s : pystr) : strip (strip s) = strip s.
Proof.
  unfold strip at 1. rewrite (lstrip_id _ (head_strip s)).
  apply rstrip_rstrip.
Qed.

Lemma rstrip_last (s : pystr) : rstrip s = s -> last_space s = false.
Proof.
  induction s as [|c r IH]; [reflexivity|]. cbn.
  destruct (rstrip r) as [|d r'] eqn:E.
  - destruct (is_space c) eqn:Hc; [discriminate|]. now intros [= <-].
  - intros [= <-]. auto.
Qed.

Lemma last_strip (s : pystr) : last_space (strip s) = false.
Proof. apply rstrip_last. unfold strip. apply rstrip_rstrip. Qed.

(** ** The scan of [re.sub] ends before its fuel *)

Lemma re_sub_fuel_enough (m : matcher) :
  shrinking m ->
  forall n1 n2 (s : pystr),
    (length s <= n1)%nat -> (length s <= n2)%nat ->
    re_sub_fuel m n1 s = re_sub_fuel m n2 s.
Proof.
  intros Hm. induction n1 as [|n1 IH]; intros n2 s H1 H2.
  - destruct s; [now destruct n2 | cbn in H1; lia].
  - destruct s as [|c t]; [now destruct n2|].
    destruct n2 as [|n2]; [cbn in H2; lia|]. cbn [re_sub_fuel].
    destruct (m (c :: t)) as [[repl rest]|] eqn:E.
    + apply Hm in E. cbn in *. f_equal. apply IH; lia.
    + cbn in *. f_equal. apply IH; lia.
Qed.

Lemma re_sub_step (m : matcher) c (t : pystr) :
  shrinking m ->
  re_sub m (c :: t)
  = match m (c :: t) with
    | Some (repl, rest) => repl ++ re_sub m rest
    | None => c :: re_sub m t
    end.
Proof.
  intros Hm. unfold re_sub. cbn [length re_sub_fuel].
  destruct (m (c :: t)) as [[repl rest]|] eqn:E; [|reflexivity].
  apply Hm in E. cbn in E. f_equal.
  apply re_sub_fuel_enough; [exact Hm | lia | lia].
Qed.

Lemma close_bold_step c d (r : pystr) :
  close_bold (c :: d :: r)
  = if (c =? star) && (d =? star) then Some ([], r)
    else if c =? nl then None
    else match close_bold (d :: r) with
         | Some (inner, rest) => Some (c :: inner, rest)
         | None => None
         end.
Proof. reflexivity. Qed.

Lemma close_bold_length (s inner rest : pystr) :
  close_bold s = Some (inner, rest) -> (length rest < length s)%nat.
Proof.
  revert inner. induction s as [|c t IH]; intros inner; [discriminate|].
  destruct t as [|d r]; [discriminate|]. rewrite close_bold_step.
  destruct ((c =? star) && (d =? star)).
  - intros [= _ <-]. cbn. lia.
  - destruct (c =? nl); [discriminate|].
    destruct (close_bold (d :: r)) as [[inner' rest']|]; [|discriminate].
    intros [= _ <-]. specialize (IH inner' eq_refl). cbn in *. lia.
Qed.

Lemma close_italic_length (s inner rest : pystr) :
  close_italic s = Some (inner, rest) -> (length rest < length s)%nat.
Proof.
  revert inner. induction s as [|c t IH]; intros inner; [discriminate|].
  cbn [close_italic]. destruct (c =? star).
  - intros [= _ <-]. cbn. lia.
  - destruct (c =? nl); [discriminate|].
    destruct (close_italic t) as [[inner' rest']|]; [|discriminate].
    intros [= _ <-]. specialize (IH inner' eq_refl). cbn in *. lia.
Qed.

Lemma match_bold_shrinking : shrinking match_bold.
Proof.
  intros [|c [|d r]] repl rest; cbn; try discriminate.
  destruct ((c =? star) && (d =? star)); [|discriminate].
  intros H. apply close_bold_length in H. lia.
Qed.

Lemma match_italic_shrinking : shrinking match_italic.
Proof.
  intros [|c r] repl rest; cbn; [discriminate|].
  destruct (c =? star); [|discriminate].
  intros H. apply close_italic_length in H. lia.
Qed.

Lemma match_spaces_shrinking : shrinking match_spaces.
Proof.
  intros [|c [|d r]] repl rest; cbn; try discriminate.
  destruct (is_space c && is_space d); [|discriminate].
  intros [= _ <-]. pose proof (length_lstrip r). lia.
Qed.

(** The substitutions on the texts they were tried on in Python. *)
Example sub_bold_nested :
  sub_bold (py "***a** b ****c****") = py "*a b c".
Proof. vm_compute. reflexivity. Qed.

Example sub_spaces_runs :
  sub_spaces (py "a" ++ [nl; nl] ++ py "b  c " ++ nl :: py " d" ++ 9 :: py "e")
  = py "a b c d" ++ 9 :: py "e".
Proof. vm_compute. reflexivity. Qed.

Example drop_lines_with_model :
  drop_lines_with (py "model=")
    (py "a" ++ nl :: py "x model=foo" ++ nl :: py "b" ++ nl :: py "model=" ++ [nl])
  = py "a" ++ [nl; nl] ++ py "b" ++ [nl; nl].
Proof. vm_compute. reflexivity. Qed.

(** ** Runs of whitespace *)

Lemma re_sub_id (m : matcher) n (s : pystr) :
  found m s = false -> re_sub_fuel m n s = s.
Proof.
  revert s. induction n as [|n IH]; intros s; [reflexivity|].
  destruct s as [|c t]; [reflexivity|]. cbn [found re_sub_fuel].
  unfold matches. destruct (m (c :: t)); [discriminate|].
  cbn. intros H. f_equal. auto.
Qed.

Lemma match_spaces_some (s repl rest : pystr) :
  match_spaces s = Some (repl, rest) ->
  exists c d r, s = c :: d :: r /\ is_space c = true /\ is_space d = true
                /\ repl = [space] /\ rest = lstrip r.
Proof.
  destruct s as [|c [|d r]]; cbn; try discriminate.
  destruct (is_space c) eqn:Hc, (is_space d) eqn:Hd; cbn; try discriminate.
  intros [= <- <-]. exists c, d, r. auto.
Qed.

Lemma match_spaces_none c (t : pystr) :
  match_spaces (c :: t) = None -> is_space c = true -> head_space t = false.
Proof.
  destruct t as [|d r]; cbn; [easy|]. intros H Hc. rewrite Hc in H.
  destruct (is_space d); [discriminate | reflexivity].
Qed.

Lemma found_spaces_cons c (t : pystr) :
  found match_spaces (c :: t)
  = is_space c && head_space t || found match_spaces t.
Proof.
  cbn [found]. f_equal. unfold matches.
  destruct t as [|d r]; cbn; [now rewrite andb_false_r|].
  now destruct (is_space c), (is_space d).
Qed.

Lemma starts_with_sub_spaces (p : pystr) n (s : pystr) :
  spaceless p = true ->
  starts_with p (re_sub_fuel match_spaces n s) = true ->
  starts_with p s = true.
Proof.
  revert p s. induction n as [|n IH]; intros p s Hp; [easy|].
  destruct s as [|c t]; [easy|]. destruct p as [|x p]; [easy|].
  cbn [re_sub_fuel].
  destruct (match_spaces (c :: t)) as [[repl rest]|] eqn:E.
  - apply match_spaces_some in E as (c' & d & r & _ & _ & _ & -> & _).
    cbn [app]. now rewrite (starts_with_space (x :: p) space _) by easy.
  - cbn [starts_with]. rewrite !andb_true_iff. intros [-> H].
    split; [reflexivity|]. apply (IH p t); [|exact H].
    cbn in Hp. now apply andb_true_iff in Hp.
Qed.

Lemma contains_sub_spaces (p : pystr) n (s : pystr) :
  p <> [] -> spaceless p = true ->
  contains p (re_sub_fuel match_spaces n s) = true -> contains p s = true.
Proof.
  intros Hne Hp. revert s. induction n as [|n IH]; intros s; [easy|].
  destruct s as [|c t]; [easy|]. intros H.
  assert (Hs := starts_with_sub_spaces p (S n) (c :: t) Hp).
  cbn [re_sub_fuel] in *.
  destruct (match_spaces (c :: t)) as [[repl rest]|] eqn:E.
  - apply match_spaces_some in E as (c' & d & r & [= -> ->] & _ & _ & -> & ->).
    cbn [app contains] in H.
    rewrite (starts_with_space p space _ Hne Hp eq_refl) in H.
    do 2 apply contains_cons. apply contains_lstrip, IH, H.
  - cbn [contains] in H. apply orb_true_iff in H as [H | H].
    + cbn [contains]. now rewrite (Hs H).
    + apply contains_cons, IH, H.
Qed.

Lemma head_sub_spaces n (s : pystr) :
  head_space s = false ->
  head_space (re_sub_fuel match_spaces n s) = false.
Proof.
  destruct n as [|n]; [easy|]. destruct s as [|c t]; [easy|].
  cbn [head_space re_sub_fuel]. intros Hc.
  destruct (match_spaces (c :: t)) as [[repl rest]|] eqn:E.
  - apply match_spaces_some in E as (c' & d & r & [= -> ->] & Hc' & _).
    congruence.
  - exact Hc.
Qed.

Lemma found_sub_spaces n (s : pystr) :
  (length s <= n)%nat ->
  found match_spaces (re_sub_fuel match_spaces n s) = false.
Proof.
  revert s. induction n as [|n IH]; intros s Hlen.
  - destruct s; [reflexivity | cbn in Hlen; lia].
  - destruct s as [|c t]; [reflexivity|]. cbn [re_sub_fuel].
    destruct (match_spaces (c :: t)) as [[repl rest]|] eqn:E.
    + apply match_spaces_some in E as (c' & d & r & [= -> ->] & _ & _ & -> & ->).
      cbn [app]. rewrite found_spaces_cons.
      rewrite (head_sub_spaces n _ (head_lstrip r)), andb_false_r.
      apply IH. pose proof (length_lstrip r). cbn in Hlen. lia.
    + rewrite found_spaces_cons, IH by (cbn in Hlen; lia).
      rewrite orb_false_r.
      destruct (is_space c) eqn:Hc; [|reflexivity].
      now rewrite (head_sub_spaces n t (match_spaces_none c t E Hc)).
Qed.

Lemma found_spaces_app_inv (a b : pystr) :
  found match_spaces (a ++ b) = false ->
  found match_spaces a = false /\ found match_spaces b = false.
Proof.
  induction a as [|c a IH]; [now cbn|].
  cbn [app]. rewrite !found_spaces_cons, !orb_false_iff.
  intros [Hc H]. destruct (IH H) as [Ha Hb]. repeat split; try assumption.
  destruct a as [|d a]; [apply andb_false_r | exact Hc].
Qed.

Lemma head_space_app (a b : pystr) :
  a <> [] -> head_space (a ++ b) = head_space a.
Proof. destruct a; [congruence | reflexivity]. Qed.

Lemma found_spaces_app (a b : pystr) :
  found match_spaces a = false -> found match_spaces b = false ->
  last_space a && head_space b = false ->
  found match_spaces (a ++ b) = false.
Proof.
  induction a as [|c a IH]; [now cbn|].
  cbn [app]. rewrite !found_spaces_cons, !orb_false_iff.
  intros [Hc Ha] Hb Hlast. destruct a as [|d a].
  - cbn in *. now rewrite Hlast, Hb.
  - split; [exact Hc|]. apply IH; assumption.
Qed.

Lemma found_spaces_line (l s : pystr) :
  In l (split_nl s) -> found match_spaces s = false ->
  found match_spaces l = false.
Proof.
  rewrite <- (join_split s) at 2. generalize (split_nl s) as ls.
  induction ls as [|l0 ls IH]; [easy|]. cbn [join_nl].
  destruct ls as [|l1 ls].
  - now intros [<- | []].
  - intros Hin H. apply found_spaces_app_inv in H as [H0 H].
    destruct Hin as [<- | Hin]; [exact H0|].
    apply IH; [exact Hin|].
    rewrite found_spaces_cons in H. now apply orb_false_iff in H.
Qed.

Lemma found_spaces_strip (s : pystr) :
  found match_spaces s = false -> found match_spaces (strip s) = false.
Proof.
  intros H. unfold strip.
  destruct (lstrip_suffix s) as (w & E). rewrite E in H.
  apply found_spaces_app_inv in H as [_ H].
  destruct (rstrip_prefix (lstrip s)) as (w' & E'). rewrite E' in H.
  now apply found_spaces_app_inv in H.
Qed.

Lemma keep_line_nonempty (l : pystr) : keep_line l = true -> l <> [].
Proof. now destruct l. Qed.

Lemma tidy_line_head (l : pystr) : tidy_line l -> head_space l = false.
Proof. intros (Hs & _). rewrite <- Hs. apply head_strip. Qed.

Lemma tidy_line_last (l : pystr) : tidy_line l -> last_space l = false.
Proof. intros (Hs & _). rewrite <- Hs. apply last_strip. Qed.

Lemma head_join (l : pystr) ls :
  l <> [] -> head_space (join_nl (l :: ls)) = head_space l.
Proof.
  intros Hne. cbn [join_nl]. destruct ls; [reflexivity|].
  now apply head_space_app.
Qed.

Lemma tidy_lines_head ls :
  Forall tidy_line ls -> head_space (join_nl ls) = false.
Proof.
  intros H. destruct H as [|l ls Hl _]; [reflexivity|].
  rewrite head_join; [now apply tidy_line_head|].
  apply keep_line_nonempty, Hl.
Qed.

Lemma found_spaces_join ls :
  Forall tidy_line ls -> found match_spaces (join_nl ls) = false.
Proof.
  induction 1 as [|l ls Hl Hls IH]; [reflexivity|]. cbn [join_nl].
  destruct ls as [|l1 ls]; [apply Hl|].
  apply found_spaces_app.
  - apply Hl.
  - rewrite found_spaces_cons, IH, (tidy_lines_head _ Hls). reflexivity.
  - now rewrite (tidy_line_last l Hl).
Qed.

(** ** Splitting what was joined *)

Lemma split_nl_line (l : pystr) : ~ In nl l -> split_nl l = [l].
Proof.
  induction l as [|c r IH]; [reflexivity|]. intros H. cbn [split_nl].
  destruct (N.eqb_spec c nl) as [->|_]; [exfalso; apply H; now left|].
  rewrite IH; [reflexivity|]. intros Hin. apply H. now right.
Qed.

Lemma split_nl_app (l s : pystr) :
  ~ In nl l -> split_nl (l ++ nl :: s) = l :: split_nl s.
Proof.
  induction l as [|c r IH]; [reflexivity|]. intros H. cbn [app split_nl].
  destruct (N.eqb_spec c nl) as [->|_]; [exfalso; apply H; now left|].
  rewrite IH; [reflexivity|]. intros Hin. apply H. now right.
Qed.

Lemma split_join ls :
  ls <> [] -> Forall (fun l => ~ In nl l) ls -> split_nl (join_nl ls) = ls.
Proof.
  intros Hne H. induction H as [|l ls Hl Hls IH]; [congruence|].
  cbn [join_nl]. destruct ls as [|l1 ls].
  - now apply split_nl_line.
  - rewrite split_nl_app by exact Hl. f_equal. now apply IH.
Qed.

(** ** The loop of the sanitizer *)

Lemma clean_loop lines acc :
  fold_left (fun lines line =>
               let line := strip line in
               if keep_line line then lines ++ [line] else lines)
            lines acc
  = acc ++ List.filter keep_line (List.map strip lines).
Proof.
  revert acc. induction lines as [|line rest IH]; intros acc.
  - cbn. now rewrite app_nil_r.
  - cbn [fold_left List.map List.filter]. rewrite IH.
    destruct (keep_line (strip line)); [|reflexivity].
    now rewrite <- app_assoc.
Qed.

Lemma tidy_lines_kept ls :
  Forall tidy_line ls -> List.filter keep_line (List.map strip ls) = ls.
Proof.
  induction 1 as [|l ls (Hs & Hk & _) _ IH]; [reflexivity|].
  cbn. now rewrite Hs, Hk, IH.
Qed.

Lemma tidy_lines_id ls :
  Forall tidy_line ls ->
  join_nl (List.filter keep_line (List.map strip (split_nl (join_nl ls))))
  = join_nl ls.
Proof.
  intros H. destruct ls as [|l ls]; [reflexivity|].
  rewrite split_join; [now rewrite tidy_lines_kept | easy |].
  eapply Forall_impl; [exact H|]. intros a Ha. apply Ha.
Qed.

(** ** The response sanitizer *)

Lemma clean_unfold (text : pystr) :
  _clean_response text
  = join_nl
      (List.filter keep_line
         (List.map strip
            (split_nl
               (sub_spaces
                  (replace_escaped_nl
                     (drop_lines_with (py "message=")
                        (drop_lines_with (py "done=")
                           (drop_lines_with (py "created_at=")
                              (drop_lines_with (py "model=")
                                 (sub_italic (sub_bold text))))))))))).
Proof. unfold _clean_response. now rewrite clean_loop. Qed.

Lemma clean_contains (p text : pystr) :
  p <> [] -> spaceless p = true ->
  contains p (_clean_response text) = true ->
  contains p
    (replace_escaped_nl
       (drop_lines_with (py "message=")
          (drop_lines_with (py "done=")
             (drop_lines_with (py "created_at=")
                (drop_lines_with (py "model=")
                   (sub_italic (sub_bold text))))))) = true.
Proof.
  intros Hne Hp. rewrite clean_unfold. intros H.
  apply contains_join_inv in H as (l & Hin & Hl); [|assumption..].
  apply filter_In in Hin as [Hin _].
  apply in_map_iff in Hin as (l0 & <- & Hin).
  apply contains_strip in Hl.
  pose proof (contains_line p l0 _ Hin Hl) as H.
  now apply contains_sub_spaces in H.
Qed.

Lemma fragment_is_token (frag : pystr) :
  In frag echo_fragments -> frag <> [] /\ spaceless frag = true.
Proof.
  intros [<- | [<- | [<- | [<- | []]]]]; split;
    solve [reflexivity | intros H; vm_compute in H; discriminate H].
Qed.

Lemma clean_no_fragment (frag text : pystr) :
  In frag echo_fragments -> contains frag (_clean_response text) = false.
Proof.
  intros Hin. destruct (fragment_is_token frag Hin) as [Hne Hp].
  apply not_true_iff_false. intros H.
  apply clean_contains, contains_replace in H; try assumption.
  destruct Hin as [<- | [<- | [<- | [<- | []]]]].
  - do 3 apply drop_lines_monotone in H; try assumption.
    now rewrite drop_lines_removes in H.
  - do 2 apply drop_lines_monotone in H; try assumption.
    now rewrite drop_lines_removes in H.
  - apply drop_lines_monotone in H; try assumption.
    now rewrite drop_lines_removes in H.
  - now rewrite drop_lines_removes in H.
Qed.

Lemma clean_no_echo (text : pystr) : has_echo (_clean_response text) = false.
Proof.
  unfold has_echo. apply not_true_iff_false. intros H.
  apply existsb_exists in H as (frag & Hin & H).
  now rewrite clean_no_fragment in H.
Qed.

Lemma clean_no_escape (text : pystr) :
  contains escaped_nl (_clean_response text) = false.
Proof.
  apply not_true_iff_false. intros H.
  apply clean_contains in H; [|easy|reflexivity].
  now rewrite replace_no_escape in H.
Qed.

Lemma clean_tidy (text : pystr) : tidy (_clean_response text).
Proof.
  split; [|split; [apply clean_no_echo | apply clean_no_escape]].
  rewrite clean_unfold. eexists. split; [reflexivity|].
  apply List.Forall_forall. intros l Hin.
  apply filter_In in Hin as [Hin Hkeep].
  apply in_map_iff in Hin as (l0 & <- & Hin).
  split; [apply strip_strip|]. split; [exact Hkeep|]. split.
  - apply found_spaces_strip. eapply found_spaces_line; [exact Hin|].
    now apply found_sub_spaces.
  - intros Hnl. apply In_strip in Hnl.
    now apply (split_nl_no_newline _ _ Hin).
Qed.

Lemma found_bold_italic (s : pystr) :
  found match_italic s = false -> found match_bold s = false.
Proof.
  induction s as [|c t IH]; [reflexivity|]. cbn [found].
  rewrite !orb_false_iff. intros [Hm Ht]. split; [|auto].
  unfold matches in *. destruct t as [|d r]; [reflexivity|].
  cbn in *. destruct (c =? star); [|reflexivity].
  cbn in *. destruct (d =? star); [discriminate | reflexivity].
Qed.

Lemma has_echo_false (y frag : pystr) :
  has_echo y = false -> In frag echo_fragments -> contains frag y = false.
Proof.
  intros H Hin. apply not_true_iff_false. intros Hc.
  apply not_true_iff_false in H. apply H.
  apply existsb_exists. eauto.
Qed.

Lemma tidy_fixpoint (y : pystr) :
  tidy y -> has_markup y = false -> _clean_response y = y.
Proof.
  intros ((ls & -> & Hls) & Hecho & Hesc) Hmark.
  rewrite clean_unfold. unfold sub_bold, sub_italic, sub_spaces, re_sub.
  rewrite (re_sub_id match_bold) by now apply found_bold_italic.
  rewrite (re_sub_id match_italic) by exact Hmark.
  rewrite (drop_lines_id (py "model="))
    by (apply (has_echo_false _ _ Hecho); cbn; tauto).
  rewrite (drop_lines_id (py "created_at="))
    by (apply (has_echo_false _ _ Hecho); cbn; tauto).
  rewrite (drop_lines_id (py "done="))
    by (apply (has_echo_false _ _ Hecho); cbn; tauto).
  rewrite (drop_lines_id (py "message="))
    by (apply (has_echo_false _ _ Hecho); cbn; tauto).
  rewrite replace_id by exact Hesc.
  rewrite (re_sub_id match_spaces) by now apply found_spaces_join.
  now apply tidy_lines_id.
Qed.

(** C7. When the text that [_clean_response] returns for [x] holds no
    emphasis markup, cleaning it once more changes nothing. (Echo
    fragments never survive the first pass, so that nothing need be asked
    about them.) *)
Theorem clean_idempotent_once_clean (x : pystr) :
  has_markup (_clean_response x) = false ->
  _clean_response (_clean_response x) = _clean_response x.
Proof.
  intros Hmark. apply tidy_fixpoint; [apply clean_tidy | exact Hmark].
Qed.

Lemma clean_idempotent_once_clean_witness :
  let x := py "**Hi**  *there*" ++ nl :: py "x model=foo" ++ nl :: py " b\nc " in
  _clean_response (_clean_response x) = _clean_response x.
Proof.
  apply (clean_idempotent_once_clean
           (py "**Hi**  *there*" ++ nl :: py "x model=foo" ++ nl :: py " b\nc ")).
  vm_compute. reflexivity.
Defined.

(** Without the condition of C7 a second pass can change the text: from
    [a*\n\nb*] the first pass makes [a* b*] and the second [a b]. *)
Lemma clean_twice_with_markup :
  _clean_response (py "a*" ++ nl :: nl :: py "b*") = py "a* b*"
  /\ _clean_response (py "a* b*") = py "a b".
Proof. split; vm_compute; reflexivity. Qed.

(** ** A text led by an echoed line *)

Lemma match_italic_other c (t : pystr) :
  c <> star -> matches match_italic (c :: t) = false.
Proof.
  intros Hc. unfold matches, match_italic.
  destruct (N.eqb_spec c star); [contradiction | reflexivity].
Qed.

Lemma found_italic_prefix (l s : pystr) :
  ~ In star l -> found match_italic (l ++ s) = found match_italic s.
Proof.
  induction l as [|c l IH]; [reflexivity|]. intros H. cbn [app found].
  rewrite match_italic_other by (intros ->; apply H; now left).
  apply IH. intros Hin. apply H. now right.
Qed.

Lemma found_italic_plain (s : pystr) :
  ~ In star s -> found match_italic s = false.
Proof.
  intros H. rewrite <- (app_nil_r s). now rewrite found_italic_prefix.
Qed.

Lemma contains_after_space (p y : pystr) w :
  p <> [] -> spaceless p = true -> is_space w = true ->
  contains p y = false -> contains p (w :: y) = false.
Proof.
  intros Hne Hp Hw Hy. cbn [contains].
  now rewrite (starts_with_space p w y Hne Hp Hw), Hy.
Qed.

Lemma drop_lines_first (q l y : pystr) :
  ~ In nl l -> contains q l = true -> contains q y = false ->
  drop_lines_with q (l ++ nl :: y) = nl :: y.
Proof.
  intros Hl Hq Hy. unfold drop_lines_with.
  rewrite split_nl_app by exact Hl. cbn [List.map]. rewrite Hq.
  pose proof (drop_lines_id q y Hy) as Hid. unfold drop_lines_with in Hid.
  destruct (split_nl_cons y) as (l1 & ls & E). rewrite E in *.
  cbn [List.map join_nl] in *. cbn [app]. now rewrite Hid.
Qed.

Lemma tidy_after_newline (y : pystr) :
  tidy y ->
  join_nl (List.filter keep_line (List.map strip (split_nl (nl :: y)))) = y.
Proof.
  intros ((ls & -> & Hls) & _). cbn [split_nl]. cbn [N.eqb nl Pos.eqb].
  cbn [List.map List.filter]. change (keep_line (strip [])) with false.
  cbn iota. now apply tidy_lines_id.
Qed.

(** ** A text closed by an echoed line *)

Lemma split_nl_app_nl (a b : pystr) :
  split_nl (a ++ nl :: b) = split_nl a ++ split_nl b.
Proof.
  induction a as [|c a IH]; [reflexivity|]. cbn [app split_nl].
  rewrite IH. destruct (c =? nl); [reflexivity|].
  now destruct (split_nl_cons a) as (l & ls & ->).
Qed.

Lemma join_snoc ls (l : pystr) :
  ls <> [] -> join_nl (ls ++ [l]) = join_nl ls ++ nl :: l.
Proof.
  induction ls as [|l0 ls IH]; [congruence|]. intros _.
  destruct ls as [|l1 ls]; [reflexivity|].
  change (join_nl ((l0 :: l1 :: ls) ++ [l]))
    with (l0 ++ nl :: join_nl ((l1 :: ls) ++ [l])).
  rewrite IH by easy. cbn [join_nl]. now rewrite <- app_assoc.
Qed.

Lemma drop_lines_last (q l y : pystr) :
  ~ In nl l -> contains q l = true -> contains q y = false ->
  drop_lines_with q (y ++ nl :: l) = y ++ [nl].
Proof.
  intros Hl Hq Hy. unfold drop_lines_with.
  rewrite split_nl_app_nl, (split_nl_line l Hl), map_app.
  cbn [List.map]. rewrite Hq.
  pose proof (drop_lines_id q y Hy) as Hid. unfold drop_lines_with in Hid.
  rewrite join_snoc, Hid; [reflexivity|].
  now destruct (split_nl_cons y) as (l1 & ls & ->).
Qed.

Lemma close_italic_plain (b : pystr) : ~ In star b -> close_italic b = None.
Proof.
  induction b as [|c b IH]; [reflexivity|]. intros H. cbn.
  destruct (N.eqb_spec c star) as [->|_]; [exfalso; apply H; now left|].
  destruct (c =? nl); [reflexivity|].
  rewrite IH; [reflexivity|]. intros Hin. apply H. now right.
Qed.

Lemma close_italic_app_none (a b : pystr) :
  close_italic a = None -> ~ In star b -> close_italic (a ++ b) = None.
Proof.
  intros Ha Hb. induction a as [|c a IH]; [now apply close_italic_plain|].
  cbn in *. destruct (c =? star); [discriminate|].
  destruct (c =? nl); [reflexivity|].
  destruct (close_italic a) as [[inner rest]|]; [discriminate|].
  now rewrite IH.
Qed.

Lemma found_italic_suffix (a b : pystr) :
  found match_italic a = false -> ~ In star b ->
  found match_italic (a ++ b) = false.
Proof.
  intros Ha Hb. induction a as [|c a IH]; [now apply found_italic_plain|].
  cbn [app found] in *. apply orb_false_iff in Ha as [Hm Ha].
  rewrite IH by exact Ha. rewrite orb_false_r.
  unfold matches, match_italic in *. destruct (c =? star); [|reflexivity].
  destruct (close_italic a) as [[inner rest]|] eqn:E; [discriminate|].
  now rewrite close_italic_app_none.
Qed.

Lemma contains_before_space (p y : pystr) w :
  p <> [] -> spaceless p = true -> is_space w = true ->
  contains p y = false -> contains p (y ++ [w]) = false.
Proof.
  intros Hne Hp Hw Hy. apply not_true_iff_false. intros H.
  destruct (contains_sep p y [] w Hne Hp Hw H) as [H' | H'].
  - congruence.
  - now rewrite contains_nil in H'.
Qed.

Lemma last_space_app (a b : pystr) :
  b <> [] -> last_space (a ++ b) = last_space b.
Proof.
  intros Hb. induction a as [|c a IH]; [reflexivity|].
  cbn [app last_space]. destruct (a ++ b) eqn:E; [|exact IH].
  apply app_eq_nil in E as [_ E]. contradiction.
Qed.

Lemma tidy_lines_last ls :
  Forall tidy_line ls -> last_space (join_nl ls) = false.
Proof.
  induction 1 as [|l ls Hl Hls IH]; [reflexivity|]. cbn [join_nl].
  destruct ls as [|l1 ls]; [now apply tidy_line_last|].
  rewrite last_space_app by easy.
  cbn [last_space]. destruct (join_nl (l1 :: ls)) eqn:E; [|exact IH].
  exfalso. inversion Hls as [|? ? Hl1 _]; subst.
  apply (keep_line_nonempty l1); [apply Hl1|].
  cbn [join_nl] in E. destruct ls; [exact E|].
  now apply app_eq_nil in E as [E _].
Qed.

Lemma tidy_before_newline (y : pystr) :
  tidy y ->
  join_nl (List.filter keep_line (List.map strip (split_nl (y ++ [nl])))) = y.
Proof.
  intros ((ls & -> & Hls) & _).
  rewrite split_nl_app_nl, map_app, List.filter_app.
  change (List.filter keep_line (List.map strip (split_nl []))) with (@nil pystr).
  rewrite app_nil_r. now apply tidy_lines_id.
Qed.

(** C2, as the code has it. The text that [_clean_response] returns
    never holds a [model=] fragment, so that a line with one is always
    removed. And when such a line, itself without asterisk, leads or
    closes a text that is otherwise in cleaned form (a text that
    [_clean_response] leaves as it is, without emphasis markup), the
    result is exactly that text: its lines, unchanged and in their
    order. *)
Theorem model_line_removed :
  (forall text, contains (py "model=") (_clean_response text) = false)
  /\ (forall line rest,
        ~ In nl line -> ~ In star line ->
        contains (py "model=") line = true ->
        _clean_response rest = rest -> has_markup rest = false ->
        rest <> [] ->
        _clean_response (line ++ nl :: rest) = rest
        /\ _clean_response (rest ++ nl :: line) = rest).
Proof.
  split.
  { intros text. apply clean_no_fragment. cbn. tauto. }
  intros line rest Hnl Hstar Hline Hfix Hmark Hne.
  assert (Htidy : tidy rest) by (rewrite <- Hfix; apply clean_tidy).
  pose proof Htidy as ((ls & E & Hls) & Hecho & Hesc).
  assert (Hsp : found match_spaces rest = false)
    by (rewrite E; now apply found_spaces_join).
  split.
  - assert (Hfrag : forall frag, In frag echo_fragments ->
                                 contains frag (nl :: rest) = false).
    { intros frag Hin. destruct (fragment_is_token frag Hin) as [Hf Hs].
      apply contains_after_space; try easy.
      now apply (has_echo_false _ _ Hecho). }
    rewrite clean_unfold. unfold sub_bold, sub_italic, sub_spaces, re_sub.
    assert (Hm : found match_italic (line ++ nl :: rest) = false).
    { rewrite found_italic_prefix by exact Hstar. cbn [found].
      now rewrite match_italic_other by easy. }
    rewrite (re_sub_id match_bold) by now apply found_bold_italic.
    rewrite (re_sub_id match_italic) by exact Hm.
    rewrite drop_lines_first;
      [| exact Hnl | exact Hline
       | apply (has_echo_false _ _ Hecho); cbn; tauto].
    rewrite (drop_lines_id (py "created_at=")) by (apply Hfrag; cbn; tauto).
    rewrite (drop_lines_id (py "done=")) by (apply Hfrag; cbn; tauto).
    rewrite (drop_lines_id (py "message=")) by (apply Hfrag; cbn; tauto).
    rewrite replace_id by (apply contains_after_space; easy).
    rewrite (re_sub_id match_spaces); [now apply tidy_after_newline|].
    rewrite found_spaces_cons, Hsp, orb_false_r.
    rewrite E, (tidy_lines_head _ Hls). apply andb_false_r.
  - assert (Hfrag : forall frag, In frag echo_fragments ->
                                 contains frag (rest ++ [nl]) = false).
    { intros frag Hin. destruct (fragment_is_token frag Hin) as [Hf Hs].
      apply contains_before_space; try easy.
      now apply (has_echo_false _ _ Hecho). }
    rewrite clean_unfold. unfold sub_bold, sub_italic, sub_spaces, re_sub.
    assert (Hm : found match_italic (rest ++ nl :: line) = false).
    { apply found_italic_suffix; [exact Hmark|].
      intros [H | H]; [discriminate H | contradiction]. }
    rewrite (re_sub_id match_bold) by now apply found_bold_italic.
    rewrite (re_sub_id match_italic) by exact Hm.
    rewrite drop_lines_last;
      [| exact Hnl | exact Hline
       | apply (has_echo_false _ _ Hecho); cbn; tauto].
    rewrite (drop_lines_id (py "created_at=")) by (apply Hfrag; cbn; tauto).
    rewrite (drop_lines_id (py "done=")) by (apply Hfrag; cbn; tauto).
    rewrite (drop_lines_id (py "message=")) by (apply Hfrag; cbn; tauto).
    rewrite replace_id by (apply contains_before_space; easy).
    rewrite (re_sub_id match_spaces); [now apply tidy_before_newline|].
    apply found_spaces_app; [exact Hsp | reflexivity |].
    rewrite E, (tidy_lines_last _ Hls). reflexivity.
Qed.

(** C2 as the spec states it fails. A line [Example: x] after the echoed
    line is dropped by the filter of the loop; and from [a\nmodel=foo\nb]
    the result is the one line [a b], of which neither [a] nor [b] is a
    line. *)
Lemma other_lines_do_not_survive :
  ~ other_lines_survive (py "model=foo" ++ nl :: py "Example: x")
  /\ ~ other_lines_survive (py "a" ++ nl :: py "model=foo" ++ nl :: py "b").
Proof.
  split; intros H; destruct H as [_ H].
  - exists (py "model=foo"). split; [vm_compute; tauto | reflexivity].
  - specialize (H (py "Example: x")).
    assert (Hres : _clean_response (py "model=foo" ++ nl :: py "Example: x")
                   = []) by (vm_compute; reflexivity).
    rewrite Hres in H.
    destruct H as [H | []]; [vm_compute; tauto | reflexivity |].
    vm_compute in H. discriminate H.
  - exists (py "model=foo"). split; [vm_compute; tauto | reflexivity].
  - specialize (H (py "a")).
    assert (Hres : _clean_response (py "a" ++ nl :: py "model=foo" ++ nl :: py "b")
                   = py "a b") by (vm_compute; reflexivity).
    rewrite Hres in H.
    destruct H as [H | []]; [vm_compute; tauto | reflexivity |].
    vm_compute in H. discriminate H.
Qed.

Lemma model_line_removed_witness :
  _clean_response (py "model=foo" ++ nl :: py "first" ++ nl :: py "second")
  = py "first" ++ nl :: py "second"
  /\ _clean_response ((py "first" ++ nl :: py "second") ++ nl :: py "model=foo")
     = py "first" ++ nl :: py "second".
Proof.
  apply (proj2 model_line_removed (py "model=foo")
           (py "first" ++ nl :: py "second")).
  - vm_compute. intuition discriminate.
  - vm_compute. intuition discriminate.
  - reflexivity.
  - vm_compute. reflexivity.
  - reflexivity.
  - discriminate.
Defined.

(** ** The bullet extractor on lines with a single prefix *)

Section ExtractorOfBullets.

Variable uni_decimal : N -> bool.

(** The decimal digits of the table are neither whitespace nor a bullet
    glyph, as is the case of every code point of category Nd. *)
Hypothesis decimal_is_digit :
  forall c, uni_decimal c = true -> is_space c = false /\ is_glyph c = false.

Lemma is_decimal_digit c :
  is_decimal uni_decimal c = true -> is_space c = false /\ is_glyph c = false.
Proof.
  unfold is_decimal. destruct (N.ltb_spec c 128) as [Hlt | Hge];
    [|apply decimal_is_digit].
  rewrite andb_true_iff, !N.leb_le. intros [H1 H2].
  unfold is_space, is_glyph, bullet, hyphen, star.
  repeat match goal with
         | |- context [?a <=? ?b] => destruct (N.leb_spec a b); try lia
         | |- context [?a =? ?b] => destruct (N.eqb_spec a b); try lia
         end; auto.
Qed.

Lemma lstrip_spaces_app (ws body : pystr) :
  forallb is_space ws = true -> head_space body = false ->
  lstrip (ws ++ body) = body.
Proof.
  induction ws as [|w ws IH]; cbn.
  - intros _. apply lstrip_id.
  - rewrite andb_true_iff. intros [-> Hws]. auto.
Qed.

Lemma skip_digits_app (ds rest : pystr) :
  forallb (is_decimal uni_decimal) ds = true ->
  skip_digits uni_decimal (ds ++ dot :: rest) = dot :: rest.
Proof.
  induction ds as [|d ds IH]; cbn; [reflexivity|].
  rewrite andb_true_iff. intros [-> Hds]. auto.
Qed.

Lemma strip_bullet_id (s : pystr) :
  leading_glyph s = false -> strip_bullet s = s.
Proof. destruct s as [|c r]; cbn; [easy|]. now intros ->. Qed.

Lemma strip_number_id (s : pystr) :
  numbering_prefix uni_decimal s = false -> strip_number uni_decimal s = s.
Proof.
  destruct s as [|c r]; cbn; [easy|].
  destruct (is_decimal uni_decimal c); [|easy]. cbn.
  destruct (skip_digits uni_decimal r) as [|d r']; [easy|]. now intros ->.
Qed.

Lemma strip_markup_plain (s : pystr) :
  ~ In star s -> sub_italic (sub_bold s) = s.
Proof.
  intros H. apply found_italic_plain in H.
  unfold sub_italic, sub_bold, re_sub.
  rewrite (re_sub_id match_bold) by now apply found_bold_italic.
  now apply re_sub_id.
Qed.

Lemma normalise_plain (body : pystr) :
  plain uni_decimal body -> normalise_line uni_decimal body = body.
Proof.
  intros (_ & _ & Hg & Hn & Hs). unfold normalise_line.
  rewrite strip_bullet_id, strip_number_id by assumption.
  now apply strip_markup_plain.
Qed.

Lemma strip_number_part (n body : pystr) :
  number_part uni_decimal n -> plain uni_decimal body ->
  strip_number uni_decimal (n ++ body) = body
  /\ head_space (n ++ body) = false
  /\ leading_glyph (n ++ body) = false.
Proof.
  intros [-> | (d & ds & ws & -> & Hd & Hds & Hws)] Hbody.
  - destruct Hbody as (_ & Hh & Hg & Hn & _). cbn [app].
    now rewrite strip_number_id.
  - destruct (is_decimal_digit d Hd) as [Hsp Hgl].
    destruct Hbody as (_ & Hh & _). cbn [app head_space leading_glyph].
    repeat split; try assumption.
    cbn [strip_number]. rewrite Hd, <- app_assoc. cbn [app].
    rewrite skip_digits_app by exact Hds.
    rewrite N.eqb_refl. now apply lstrip_spaces_app.
Qed.

Lemma normalise_singly_prefixed (line body : pystr) :
  singly_prefixed uni_decimal line body ->
  normalise_line uni_decimal line = body.
Proof.
  intros (g & n & -> & Hg & Hn & Hbody).
  destruct (strip_number_part n body Hn Hbody) as (Hnum & Hhead & Hglyph).
  assert (Hstar : ~ In star body) by apply Hbody.
  unfold normalise_line.
  destruct Hg as [-> | (c & ws & -> & Hc & Hws)].
  - cbn [app]. rewrite strip_bullet_id by exact Hglyph.
    rewrite Hnum. now apply strip_markup_plain.
  - cbn [app strip_bullet]. rewrite Hc.
    rewrite lstrip_spaces_app by assumption.
    rewrite Hnum. now apply strip_markup_plain.
Qed.

(** C5, as the code has it. The extractor takes one leading glyph and
    then one numbering prefix off a line, no more. So when every line
    that is not blank is, once trimmed, plain text behind at most one
    glyph and then at most one numbering prefix, every returned text is
    that plain text: it begins with neither glyph nor numbering prefix
    and holds no asterisk. *)
Theorem single_prefix_removed (text : pystr) :
  (forall l, In l (split_nl text) ->
             strip l = [] \/ exists body, singly_prefixed uni_decimal (strip l) body) ->
  forall s, In s (_extract_bullet_points uni_decimal text) ->
            leading_glyph s = false
            /\ numbering_prefix uni_decimal s = false
            /\ ~ In star s.
Proof.
  intros Hlines s Hin.
  unfold _extract_bullet_points in Hin. rewrite extract_loop in Hin.
  cbn [app] in Hin. apply filter_In in Hin as [Hin _].
  apply in_map_iff in Hin as (l' & <- & Hin).
  apply filter_In in Hin as [Hin Hne].
  apply in_map_iff in Hin as (l & <- & Hin).
  destruct (Hlines l Hin) as [E | (body & Hbody)].
  - rewrite E in Hne. discriminate Hne.
  - rewrite (normalise_singly_prefixed _ _ Hbody).
    destruct Hbody as (_ & _ & _ & _ & _ & _ & _ & Hg & Hn & Hs). auto.
Qed.

End ExtractorOfBullets.

(** C5 as the spec states it fails: from the line [1. - x] the numbering
    prefix is taken off and the glyph behind it stays. *)
Lemma second_prefix_stays :
  ~ no_prefix_left ascii_decimal_only (py "1. - x").
Proof.
  intros H. destruct (H (py "- x")) as [Hg _].
  - vm_compute. tauto.
  - vm_compute in Hg. discriminate Hg.
Qed.

Lemma ascii_table_digits :
  forall c, ascii_decimal_only c = true ->
            is_space c = false /\ is_glyph c = false.
Proof. intros c H. discriminate H. Qed.

Lemma plain_letter c :
  65 <= c <= 90 -> plain ascii_decimal_only [c].
Proof.
  intros Hc. unfold plain, head_space, leading_glyph, numbering_prefix,
    is_decimal, is_space, is_glyph, bullet, hyphen, star.
  repeat split; try discriminate;
    repeat match goal with
           | |- context [?a <=? ?b] => destruct (N.leb_spec a b); try lia
           | |- context [?a <? ?b] => destruct (N.ltb_spec a b); try lia
           | |- context [?a =? ?b] => destruct (N.eqb_spec a b); try lia
           end; auto.
  intros [H | []]. unfold star in H. lia.
Qed.

(** C5 on the lines [• A], [- 1. B] and an empty one. *)
Lemma single_prefix_removed_witness :
  let text := bullet :: py " A" ++ nl :: py "- 1. B" ++ [nl] in
  In (py "B") (_extract_bullet_points ascii_decimal_only text)
  /\ leading_glyph (py "B") = false
  /\ numbering_prefix ascii_decimal_only (py "B") = false
  /\ ~ In star (py "B").
Proof.
  split; [vm_compute; tauto|].
  apply (single_prefix_removed ascii_decimal_only ascii_table_digits
           (bullet :: py " A" ++ nl :: py "- 1. B" ++ [nl])).
  - intros l Hin. vm_compute in Hin.
    destruct Hin as [<- | [<- | [<- | []]]].
    + right. exists (py "A"), [bullet; space], [].
      split; [reflexivity|]. split; [|split].
      * right. exists bullet, [space]. auto.
      * now left.
      * apply plain_letter. vm_compute. split; discriminate.
    + right. exists (py "B"), [hyphen; space], (py "1. ").
      split; [reflexivity|]. split; [|split].
      * right. exists hyphen, [space]. auto.
      * right. exists 49, [], [space]. auto.
      * apply plain_letter. vm_compute. split; discriminate.
    + now left.
  - vm_compute. tauto.
Defined.

(** * Further properties of the code *)

(** ** Extraction of the text of a document *)

Section ExtractionProperties.

Context {image : Type}.
Variable fitz_open : pystr -> option (list pystr).
Variable convert_from_path : pystr -> option (list image).
Variable image_to_string : image -> option pystr.

Lemma extract_text_normal path first_page rest :
  fitz_open path = Some (first_page :: rest) ->
  forallb is_space first_page = false ->
  extract_text fitz_open convert_from_path image_to_string path
  = (Ok (join_nl (first_page :: rest)),
     [FitzOpen path; Print (py "Detected: Normal PDF. Extracting text.");
      FitzOpen path]).
Proof.
  intros Hopen Hfirst. unfold extract_text.
  rewrite (is_scanned_pdf_pages _ _ _ _ Hopen), Hfirst.
  unfold extract_text_from_normal_pdf, do_fitz_open, do_print, io_bind, io_ret.
  now rewrite Hopen.
Qed.

(** X1. A document whose first page holds a character that is not
    whitespace is read through its text layer: [extract_text] returns the
    texts of all pages, in order, joined by newlines, after opening the
    document twice (to classify, then to read) and without rendering or
    recognising anything. *)
Theorem extract_text_of_text_document path first_page rest :
  fitz_open path = Some (first_page :: rest) ->
  forallb is_space first_page = false ->
  extract_text fitz_open convert_from_path image_to_string path
  = (Ok (join_nl (first_page :: rest)),
     [FitzOpen path; Print (py "Detected: Normal PDF. Extracting text.");
      FitzOpen path]).
Proof. apply extract_text_normal. Qed.

Lemma recognise_all_ok images ts :
  List.map image_to_string images = List.map Some ts ->
  fst (recognise_all image_to_string images) = Ok ts.
Proof.
  revert ts. induction images as [|img rest IH]; intros [|t ts]; try discriminate.
  - reflexivity.
  - cbn [List.map]. intros [= Himg Hrest]. specialize (IH ts Hrest).
    cbn [recognise_all]. unfold do_image_to_string, io_bind, io_ret.
    rewrite Himg.
    destruct (recognise_all image_to_string rest) as [[ss|e] t']; cbn in *;
      congruence.
Qed.

Lemma recognise_all_fails images img :
  In img images -> image_to_string img = None ->
  fst (recognise_all image_to_string images) = Raise RecognitionError.
Proof.
  intros Hin Hnone. induction images as [|i rest IH]; [destruct Hin|].
  cbn [recognise_all]. unfold do_image_to_string, io_bind, io_ret.
  destruct Hin as [-> | Hin].
  - now rewrite Hnone.
  - destruct (image_to_string i); [|reflexivity].
    specialize (IH Hin).
    destruct (recognise_all image_to_string rest) as [[ss|e] t']; cbn in *;
      congruence.
Qed.

(** X2. A document whose first page holds whitespace only is read by
    optical recognition, whatever text its other pages hold: when every
    rendered page is recognised, [extract_text] returns the recognised
    texts joined by newlines; when the recognition of one page fails, it
    raises and returns no text at all. *)
Theorem extract_text_of_scanned_document path first_page rest images :
  fitz_open path = Some (first_page :: rest) ->
  forallb is_space first_page = true ->
  convert_from_path path = Some images ->
  (forall ts, List.map image_to_string images = List.map Some ts ->
              fst (extract_text fitz_open convert_from_path image_to_string path)
              = Ok (join_nl ts))
  /\ (forall img, In img images -> image_to_string img = None ->
                  fst (extract_text fitz_open convert_from_path image_to_string path)
                  = Raise RecognitionError).
Proof.
  intros Hopen Hfirst Hconv.
  assert (E : fst (extract_text fitz_open convert_from_path image_to_string path)
              = match fst (recognise_all image_to_string images) with
                | Ok ts => Ok (join_nl ts)
                | Raise e => Raise e
                end).
  { unfold extract_text.
    rewrite (is_scanned_pdf_pages _ _ _ _ Hopen), Hfirst.
    unfold extract_text_from_scanned_pdf, do_convert_from_path, do_print,
      io_bind, io_ret.
    rewrite Hconv.
    now destruct (recognise_all image_to_string images) as [[ts|e] t]. }
  rewrite E. split.
  - intros ts Hts. now rewrite (recognise_all_ok _ _ Hts).
  - intros img Hin Hnone. now rewrite (recognise_all_fails _ _ Hin Hnone).
Qed.

(** X3. When the document cannot be opened, building a [PDFExtractor]
    raises after that one attempt; when it opens but has no page, [doc[0]]
    raises. In both cases nothing is extracted and no object is made. *)
Theorem constructor_fails_on_bad_document path :
  (fitz_open path = None ->
   new_PDFExtractor fitz_open convert_from_path image_to_string path
   = (Raise DocumentOpenError, [FitzOpen path]))
  /\ (fitz_open path = Some [] ->
      new_PDFExtractor fitz_open convert_from_path image_to_string path
      = (Raise IndexError, [FitzOpen path])).
Proof.
  split; intros H; unfold new_PDFExtractor, is_scanned_pdf, do_fitz_open,
    io_bind; now rewrite H.
Qed.

End ExtractionProperties.

Lemma extract_text_of_text_document_witness :
  let '(fitz_open, convert, ocr) := text_world (py "hello") in
  fst (extract_text fitz_open convert ocr (py "a.pdf")) = Ok (py "hello").
Proof.
  exact (f_equal fst
           (extract_text_of_text_document
              (fst (fst (text_world (py "hello"))))
              (snd (fst (text_world (py "hello"))))
              (snd (text_world (py "hello")))
              (py "a.pdf") (py "hello") [] eq_refl eq_refl)).
Defined.

Lemma extract_text_of_scanned_document_witness :
  let '(fitz_open, convert, ocr) := scanned_world (py "seen") in
  fst (extract_text fitz_open convert ocr (py "a.pdf")) = Ok (py "seen").
Proof.
  apply (proj1 (extract_text_of_scanned_document
                  (fst (fst (scanned_world (py "seen"))))
                  (snd (fst (scanned_world (py "seen"))))
                  (snd (scanned_world (py "seen")))
                  (py "a.pdf") [] [] [tt] eq_refl eq_refl eq_refl)
               [py "seen"]).
  reflexivity.
Defined.

Lemma constructor_fails_on_bad_document_witness :
  new_PDFExtractor (fun _ => None) (fun _ => Some [tt]) (fun _ => Some [])
    (py "a.pdf")
  = (Raise DocumentOpenError, [FitzOpen (py "a.pdf")])
  /\ new_PDFExtractor (fun _ => Some []) (fun _ => Some [tt])
       (fun _ => Some []) (py "a.pdf")
     = (Raise IndexError, [FitzOpen (py "a.pdf")]).
Proof.
  split.
  - apply (proj1 (constructor_fails_on_bad_document
                    (fun _ => None) (fun _ => Some [tt]) (fun _ : unit => Some [])
                    (py "a.pdf"))).
    reflexivity.
  - apply (proj2 (constructor_fails_on_bad_document
                    (fun _ => Some []) (fun _ => Some [tt])
                    (fun _ : unit => Some []) (py "a.pdf"))).
    reflexivity.
Defined.

(** ** What the sanitizer returns *)

(** X4. The text that [_clean_response] returns holds none of the four
    echo fragments and no escaped newline (a backslash followed by the
    letter n). *)
Theorem clean_output_without_echo (text : pystr) :
  contains (py "model=") (_clean_response text) = false
  /\ contains (py "created_at=") (_clean_response text) = false
  /\ contains (py "done=") (_clean_response text) = false
  /\ contains (py "message=") (_clean_response text) = false
  /\ contains [backslash; letter_n] (_clean_response text) = false.
Proof.
  repeat split; try (apply clean_no_fragment; cbn; tauto).
  apply clean_no_escape.
Qed.

Lemma last_rstrip (s : pystr) : last_space s = false -> rstrip s = s.
Proof.
  induction s as [|c r IH]; [reflexivity|]. cbn [last_space rstrip].
  destruct r as [|d r'].
  - cbn. now intros ->.
  - intros H. rewrite (IH H). reflexivity.
Qed.

Lemma tidy_strip (y : pystr) : tidy y -> strip y = y.
Proof.
  intros ((ls & -> & Hls) & _). unfold strip.
  rewrite (lstrip_id _ (tidy_lines_head _ Hls)).
  apply last_rstrip, tidy_lines_last, Hls.
Qed.

Lemma tidy_lines (y : pystr) :
  tidy y -> y <> [] -> Forall tidy_line (split_nl y).
Proof.
  intros ((ls & -> & Hls) & _) Hne.
  rewrite split_join; [exact Hls | now destruct ls |].
  eapply Forall_impl; [exact Hls|]. intros l Hl. apply Hl.
Qed.

(** X5. The text that [_clean_response] returns has no whitespace at
    either end; and when it is not empty, each of its lines is trimmed and
    not empty, does not begin with [Example:], does not hold
    [in real-world applications], and holds no two whitespace characters
    in a row. *)
Theorem clean_output_lines (text l : pystr) :
  strip (_clean_response text) = _clean_response text
  /\ (_clean_response text <> [] ->
      In l (split_nl (_clean_response text)) ->
      strip l = l /\ l <> []
      /\ starts_with (py "Example:") l = false
      /\ contains (py "in real-world applications") l = false
      /\ found match_spaces l = false).
Proof.
  split; [apply tidy_strip, clean_tidy|].
  intros Hne Hin.
  pose proof (tidy_lines _ (clean_tidy text) Hne) as Hall.
  rewrite List.Forall_forall in Hall.
  destruct (Hall l Hin) as (Hs & Hk & Hsp & _).
  unfold keep_line in Hk.
  apply andb_true_iff in Hk as [Hk Hc]. apply andb_true_iff in Hk as [Hn He].
  apply negb_true_iff in Hc, He.
  repeat split; try assumption. now destruct l.
Qed.

Lemma clean_output_lines_witness :
  strip (py "Hello world") = py "Hello world"
  /\ py "Hello world" <> []
  /\ starts_with (py "Example:") (py "Hello world") = false
  /\ contains (py "in real-world applications") (py "Hello world") = false
  /\ found match_spaces (py "Hello world") = false.
Proof.
  apply (proj2 (clean_output_lines
                  (py "  Hello   world" ++ nl :: py "Example: x")
                  (py "Hello world"))).
  - vm_compute. discriminate.
  - vm_compute. tauto.
Defined.

(** *** The sanitizer makes up no character *)

Lemma In_contains c (s : pystr) : In c s <-> contains [c] s = true.
Proof.
  induction s as [|d s IH]; cbn [In contains starts_with].
  - split; [easy | discriminate].
  - rewrite orb_true_iff, andb_true_r, N.eqb_eq, <- IH.
    split; intros [H | H]; auto.
Qed.

Lemma close_bold_spec (s inner rest : pystr) :
  close_bold s = Some (inner, rest) -> s = inner ++ star :: star :: rest.
Proof.
  revert inner. induction s as [|c t IH]; intros inner; [discriminate|].
  destruct t as [|d r]; [discriminate|]. rewrite close_bold_step.
  destruct ((c =? star) && (d =? star)) eqn:E.
  - apply andb_true_iff in E as [Ec Ed]. apply N.eqb_eq in Ec, Ed. subst.
    now intros [= <- <-].
  - destruct (c =? nl); [discriminate|].
    destruct (close_bold (d :: r)) as [[inner' rest']|]; [|discriminate].
    intros [= <- <-]. rewrite <- app_comm_cons. f_equal. now apply IH.
Qed.

Lemma close_italic_spec (s inner rest : pystr) :
  close_italic s = Some (inner, rest) ->
  s = inner ++ star :: rest /\ ~ In star inner /\ ~ In nl inner.
Proof.
  revert inner. induction s as [|c t IH]; intros inner; [discriminate|].
  cbn [close_italic]. destruct (N.eqb_spec c star) as [-> | Hs].
  - intros [= <- <-]. cbn. auto.
  - destruct (N.eqb_spec c nl) as [-> | Hn]; [discriminate|].
    destruct (close_italic t) as [[inner' rest']|]; [|discriminate].
    intros [= <- <-]. destruct (IH inner' eq_refl) as (-> & H1 & H2).
    cbn. repeat split; intros [H | H]; auto.
Qed.

Lemma In_re_sub (m : matcher) :
  (forall s repl rest, m s = Some (repl, rest) ->
                       forall c, In c (repl ++ rest) -> In c s) ->
  forall n (s : pystr) c, In c (re_sub_fuel m n s) -> In c s.
Proof.
  intros Hm. induction n as [|n IH]; intros s c; [easy|].
  destruct s as [|a t]; [easy|]. cbn [re_sub_fuel].
  destruct (m (a :: t)) as [[repl rest]|] eqn:E.
  - intros H. apply (Hm _ _ _ E). apply in_app_iff.
    apply in_app_iff in H as [H | H]; auto.
  - intros [H | H]; [now left | right; auto].
Qed.

Lemma In_sub_bold (s : pystr) c : In c (sub_bold s) -> In c s.
Proof.
  apply In_re_sub. intros [|a [|b r]] repl rest; cbn; try discriminate.
  destruct ((a =? star) && (b =? star)); [|discriminate].
  intros H c' Hin. apply close_bold_spec in H. subst r.
  right. right. apply in_app_iff.
  apply in_app_iff in Hin as [Hin | Hin]; [now left|]. right. now do 2 right.
Qed.

Lemma In_sub_italic (s : pystr) c : In c (sub_italic s) -> In c s.
Proof.
  apply In_re_sub. intros [|a r] repl rest; cbn; [discriminate|].
  destruct (a =? star); [|discriminate].
  intros H c' Hin. apply close_italic_spec in H as (-> & _).
  right. apply in_app_iff.
  apply in_app_iff in Hin as [Hin | Hin]; [now left|]. right. now right.
Qed.

Lemma clean_chars_from_input (text : pystr) c :
  is_space c = false -> In c (_clean_response text) -> In c text.
Proof.
  intros Hc Hin.
  assert (Hne : [c] <> []) by discriminate.
  assert (Hp : spaceless [c] = true) by (cbn; now rewrite Hc).
  apply In_contains in Hin.
  apply clean_contains, contains_replace in Hin; try assumption.
  do 4 (apply drop_lines_monotone in Hin; try assumption).
  apply In_contains in Hin. now apply In_sub_bold, In_sub_italic.
Qed.

(** X6. Every character of the text that [_clean_response] returns, other
    than whitespace, is a character of the text it was given. *)
Theorem clean_makes_up_no_character (text : pystr) c :
  is_space c = false -> In c (_clean_response text) -> In c text.
Proof. apply clean_chars_from_input. Qed.

Lemma clean_makes_up_no_character_witness :
  In 72 (py "**Hi**").
Proof.
  apply (clean_makes_up_no_character (py "**Hi**") 72).
  - reflexivity.
  - vm_compute. tauto.
Defined.

(** X7. A text of whitespace only, the empty text among them, is cleaned
    to the empty text. *)
Theorem clean_of_blank_text (text : pystr) :
  forallb is_space text = true -> _clean_response text = [].
Proof.
  intros Hblank.
  destruct (_clean_response text) as [|c y] eqn:E; [reflexivity|].
  exfalso.
  pose proof (clean_tidy text) as Htidy. rewrite E in Htidy.
  destruct Htidy as ((ls & Ey & Hls) & _).
  pose proof (tidy_lines_head _ Hls) as Hhead. rewrite <- Ey in Hhead.
  cbn in Hhead.
  assert (Hin : In c text).
  { apply clean_chars_from_input; [exact Hhead|]. rewrite E. now left. }
  rewrite forallb_forall in Hblank. apply Hblank in Hin. congruence.
Qed.

Lemma clean_of_blank_text_witness :
  _clean_response [space; nl; 9; space] = [].
Proof.
  apply (clean_of_blank_text [space; nl; 9; space]). reflexivity.
Defined.

(** ** Emphasis markup *)

Lemma re_sub_skip (m : matcher) (a s : pystr) :
  shrinking m ->
  (forall c t, c <> star -> m (c :: t) = None) ->
  ~ In star a -> re_sub m (a ++ s) = a ++ re_sub m s.
Proof.
  intros Hm Hother. induction a as [|c a IH]; [reflexivity|]. intros H.
  cbn [app]. rewrite re_sub_step by exact Hm.
  rewrite Hother by (intros ->; apply H; now left).
  f_equal. apply IH. intros Hin. apply H. now right.
Qed.

Lemma re_sub_plain (m : matcher) (s : pystr) :
  shrinking m ->
  (forall c t, c <> star -> m (c :: t) = None) ->
  ~ In star s -> re_sub m s = s.
Proof.
  intros Hm Hother H. rewrite <- (app_nil_r s) at 1.
  rewrite re_sub_skip by assumption. now rewrite app_nil_r.
Qed.

Lemma match_bold_other c (t : pystr) : c <> star -> match_bold (c :: t) = None.
Proof.
  intros Hc. destruct t as [|d r]; [reflexivity|]. cbn.
  now destruct (N.eqb_spec c star).
Qed.

Lemma match_italic_none c (t : pystr) :
  c <> star -> match_italic (c :: t) = None.
Proof. intros Hc. cbn. now destruct (N.eqb_spec c star). Qed.

Lemma close_bold_inner (inner b : pystr) :
  ~ In star inner -> ~ In nl inner ->
  close_bold (inner ++ star :: star :: b) = Some (inner, b).
Proof.
  induction inner as [|c inner IH]; [reflexivity|]. intros Hs Hn.
  cbn [app]. destruct (inner ++ star :: star :: b) as [|d r] eqn:E.
  { now destruct inner. }
  rewrite close_bold_step.
  destruct (N.eqb_spec c star) as [-> | _]; [exfalso; apply Hs; now left|].
  destruct (N.eqb_spec c nl) as [-> | _]; [exfalso; apply Hn; now left|].
  cbn [andb]. rewrite IH; [reflexivity | |]; intros H; [apply Hs | apply Hn];
    now right.
Qed.

Lemma close_italic_inner (inner b : pystr) :
  ~ In star inner -> ~ In nl inner ->
  close_italic (inner ++ star :: b) = Some (inner, b).
Proof.
  induction inner as [|c inner IH]; intros Hs Hn.
  - reflexivity.
  - cbn [app close_italic].
    destruct (N.eqb_spec c star) as [-> | _]; [exfalso; apply Hs; now left|].
    destruct (N.eqb_spec c nl) as [-> | _]; [exfalso; apply Hn; now left|].
    rewrite IH; [reflexivity | |]; intros H; [apply Hs | apply Hn]; now right.
Qed.

Lemma close_bold_plain (b : pystr) : ~ In star b -> close_bold b = None.
Proof.
  intros H. destruct (close_bold b) as [[inner rest]|] eqn:E; [|reflexivity].
  apply close_bold_spec in E. exfalso. apply H. rewrite E.
  apply in_app_iff. right. now left.
Qed.

Lemma match_bold_lone_star (b : pystr) :
  ~ In star b -> match_bold (star :: b) = None.
Proof.
  intros H. destruct b as [|d r]; [reflexivity|]. cbn.
  destruct (N.eqb_spec d star) as [-> | _]; [exfalso; apply H; now left|].
  reflexivity.
Qed.

Lemma sub_bold_single_stars (inner b : pystr) :
  ~ In star inner -> ~ In star b ->
  sub_bold (star :: inner ++ star :: b) = star :: inner ++ star :: b.
Proof.
  intros Hi Hb. unfold sub_bold.
  assert (Hlast : re_sub match_bold (star :: b) = star :: b).
  { rewrite re_sub_step by apply match_bold_shrinking.
    rewrite match_bold_lone_star by exact Hb. f_equal.
    apply re_sub_plain;
      [apply match_bold_shrinking | apply match_bold_other | exact Hb]. }
  rewrite re_sub_step by apply match_bold_shrinking.
  assert (Hfirst : match_bold (star :: inner ++ star :: b) = None).
  { destruct inner as [|c inner].
    - change (match_bold (star :: [] ++ star :: b)) with (close_bold b).
      now apply close_bold_plain.
    - cbn. destruct (N.eqb_spec c star) as [-> | _];
        [exfalso; apply Hi; now left | reflexivity]. }
  rewrite Hfirst. f_equal.
  rewrite re_sub_skip;
    [| apply match_bold_shrinking | apply match_bold_other | exact Hi].
  now rewrite Hlast.
Qed.

(** X8. The two substitutions of lines 114-115 (and 159-160) take the
    markers off an emphasised passage and leave its text as it is: with
    no other asterisk around and no newline inside the passage,
    [a**inner**b] and [a*inner*b] both become [a inner b] put together. *)
Theorem emphasis_markers_removed (a inner b : pystr) :
  ~ In star a -> ~ In star inner -> ~ In nl inner -> ~ In star b ->
  sub_italic (sub_bold (a ++ star :: star :: inner ++ star :: star :: b))
  = a ++ inner ++ b
  /\ sub_italic (sub_bold (a ++ star :: inner ++ star :: b))
     = a ++ inner ++ b.
Proof.
  intros Ha Hi Hn Hb.
  assert (Hplain : ~ In star (a ++ inner ++ b)).
  { rewrite !in_app_iff. tauto. }
  split.
  - unfold sub_bold at 1.
    rewrite re_sub_skip;
      [| apply match_bold_shrinking | apply match_bold_other | exact Ha].
    rewrite re_sub_step by apply match_bold_shrinking.
    change (match_bold (star :: star :: inner ++ star :: star :: b))
      with (close_bold (inner ++ star :: star :: b)).
    rewrite close_bold_inner by assumption.
    rewrite (re_sub_plain match_bold b);
      [| apply match_bold_shrinking | apply match_bold_other | exact Hb].
    apply re_sub_plain;
      [apply match_italic_shrinking | apply match_italic_none | exact Hplain].
  - unfold sub_bold at 1.
    rewrite re_sub_skip;
      [| apply match_bold_shrinking | apply match_bold_other | exact Ha].
    fold sub_bold. rewrite sub_bold_single_stars by assumption.
    unfold sub_italic.
    rewrite re_sub_skip;
      [| apply match_italic_shrinking | apply match_italic_none | exact Ha].
    rewrite re_sub_step by apply match_italic_shrinking.
    change (match_italic (star :: inner ++ star :: b))
      with (close_italic (inner ++ star :: b)).
    rewrite close_italic_inner by assumption.
    rewrite (re_sub_plain match_italic b);
      [reflexivity | apply match_italic_shrinking | apply match_italic_none
       | exact Hb].
Qed.

Lemma emphasis_markers_removed_witness :
  sub_italic (sub_bold (py "so **very** good")) = py "so very good"
  /\ sub_italic (sub_bold (py "so *very* good")) = py "so very good".
Proof.
  apply (emphasis_markers_removed (py "so ") (py "very") (py " good"));
    vm_compute; intuition discriminate.
Defined.

(** ** What the bullet extractor returns *)

Lemma In_lstrip (s : pystr) c : In c (lstrip s) -> In c s.
Proof.
  intros H. destruct (lstrip_suffix s) as (w & E). rewrite E.
  apply in_app_iff. now right.
Qed.

Lemma In_strip_bullet (s : pystr) c : In c (strip_bullet s) -> In c s.
Proof.
  destruct s as [|a r]; [easy|]. cbn [strip_bullet].
  destruct (is_glyph a); [|easy]. intros H. right. now apply In_lstrip.
Qed.

Lemma close_italic_none_plain (t : pystr) :
  close_italic t = None -> ~ In nl t -> ~ In star t.
Proof.
  induction t as [|c t IH]; [easy|]. cbn [close_italic].
  destruct (N.eqb_spec c star) as [-> | Hs]; [discriminate|].
  destruct (N.eqb_spec c nl) as [-> | Hn].
  - intros _ H. exfalso. apply H. now left.
  - destruct (close_italic t) as [[inner rest]|]; [discriminate|].
    intros _ H [Hc | Hin]; [congruence|].
    apply IH; [reflexivity | | exact Hin]. intros Hnl. apply H. now right.
Qed.

Lemma sub_italic_leaves_no_markup n (l : pystr) :
  ~ In nl l -> (length l <= n)%nat ->
  found match_italic (re_sub_fuel match_italic n l) = false.
Proof.
  revert l. induction n as [|n IH]; intros l Hnl Hlen.
  - destruct l; [reflexivity | cbn in Hlen; lia].
  - destruct l as [|c t]; [reflexivity|]. cbn [re_sub_fuel].
    assert (Ht : ~ In nl t) by (intros H; apply Hnl; now right).
    destruct (match_italic (c :: t)) as [[inner rest]|] eqn:E.
    + cbn [match_italic] in E. destruct (c =? star); [|discriminate].
      pose proof (close_italic_length _ _ _ E) as Hl.
      apply close_italic_spec in E as (-> & Hs & _).
      rewrite found_italic_prefix by exact Hs.
      apply IH; [|cbn in Hlen; lia].
      intros H. apply Ht. apply in_app_iff. right. now right.
    + cbn [found]. rewrite IH by (try assumption; cbn in Hlen; lia).
      rewrite orb_false_r. unfold matches.
      cbn [match_italic] in *. destruct (c =? star); [|reflexivity].
      pose proof (close_italic_none_plain t E Ht) as Hplain.
      rewrite re_sub_id by now apply found_italic_plain.
      now rewrite E.
Qed.

Section ExtractedPoints.

Variable uni_decimal : N -> bool.

Lemma skip_digits_suffix (s : pystr) :
  exists w, s = w ++ skip_digits uni_decimal s.
Proof.
  induction s as [|c r (w & IH)]; [now exists []|]. cbn.
  destruct (is_decimal uni_decimal c).
  - exists (c :: w). cbn. now f_equal.
  - now exists [].
Qed.

Lemma In_strip_number (s : pystr) c :
  In c (strip_number uni_decimal s) -> In c s.
Proof.
  destruct s as [|a r]; [easy|]. cbn [strip_number].
  destruct (is_decimal uni_decimal a); [|easy].
  destruct (skip_digits_suffix r) as (w & E).
  destruct (skip_digits uni_decimal r) as [|d r']; [easy|].
  destruct (d =? dot); [|easy].
  intros H. apply In_lstrip in H. right. rewrite E.
  apply in_app_iff. right. now right.
Qed.

Lemma In_normalise_line (l : pystr) c :
  In c (normalise_line uni_decimal l) -> In c l.
Proof.
  intros H. unfold normalise_line in H.
  now apply In_sub_italic, In_sub_bold, In_strip_number, In_strip_bullet in H.
Qed.

Lemma extract_spec_form (text : pystr) :
  _extract_bullet_points uni_decimal text
  = List.filter nonempty
      (List.map (normalise_line uni_decimal)
         (List.filter nonempty (List.map strip (split_nl text)))).
Proof. unfold _extract_bullet_points. now rewrite extract_loop. Qed.

(** X9. Every text that [_extract_bullet_points] returns is not empty,
    holds no newline and no emphasis markup (no two asterisks), and is made
    of characters of the input; and there are at most as many of them as
    the input has lines that are not blank. *)
Theorem extracted_points_shape (text s : pystr) :
  (In s (_extract_bullet_points uni_decimal text) ->
   s <> [] /\ ~ In nl s /\ has_markup s = false
   /\ forall c, In c s -> In c text)
  /\ (length (_extract_bullet_points uni_decimal text)
      <= length (List.filter (fun l => negb (forallb is_space l))
                             (split_nl text)))%nat.
Proof.
  rewrite extract_spec_form. split.
  - intros Hin. apply filter_In in Hin as [Hin Hne].
    apply in_map_iff in Hin as (l' & <- & Hin).
    apply filter_In in Hin as [Hin _].
    apply in_map_iff in Hin as (l & <- & Hin).
    assert (Hsub : forall c, In c (normalise_line uni_decimal (strip l)) -> In c l).
    { intros c Hc. now apply In_normalise_line, In_strip in Hc. }
    split; [now destruct (normalise_line uni_decimal (strip l))|].
    split; [|split].
    + intros Hnl. apply Hsub in Hnl. now apply (split_nl_no_newline _ _ Hin).
    + unfold has_markup, normalise_line, sub_italic at 1, re_sub.
      apply sub_italic_leaves_no_markup; [|lia].
      intros Hnl.
      apply In_sub_bold, In_strip_number, In_strip_bullet, In_strip in Hnl.
      now apply (split_nl_no_newline _ _ Hin).
    + intros c Hc. apply Hsub in Hc.
      rewrite <- (join_split text).
      clear - Hin Hc. induction (split_nl text) as [|l0 ls IH]; [easy|].
      cbn [join_nl]. destruct Hin as [-> | Hin].
      * destruct ls; [exact Hc | apply in_app_iff; now left].
      * destruct ls as [|l1 ls]; [easy|].
        apply in_app_iff. right. right. now apply IH.
  - etransitivity; [apply List.filter_length_le|]. rewrite length_map.
    generalize (split_nl text) as lines.
    induction lines as [|l ls IH]; [reflexivity|]. cbn [List.map List.filter].
    destruct (forallb is_space l) eqn:E.
    + apply strip_nil in E. rewrite E. cbn. exact IH.
    + destruct (strip l) eqn:Es.
      * apply strip_nil in Es. congruence.
      * cbn. lia.
Qed.

(** X10. Lines are handled one by one: the points of two texts put
    together with a newline between them are the points of the first
    followed by the points of the second. *)
Theorem extract_line_by_line (a b : pystr) :
  _extract_bullet_points uni_decimal (a ++ nl :: b)
  = _extract_bullet_points uni_decimal a
    ++ _extract_bullet_points uni_decimal b.
Proof.
  rewrite !extract_spec_form, split_nl_app_nl.
  now rewrite map_app, List.filter_app, map_app, List.filter_app.
Qed.

End ExtractedPoints.

Lemma extracted_points_shape_witness :
  py "a *b" <> [] /\ ~ In nl (py "a *b") /\ has_markup (py "a *b") = false.
Proof.
  destruct (proj1 (extracted_points_shape ascii_decimal_only
                     (py "- *a* *b") (py "a *b"))) as (H1 & H2 & H3 & _).
  - vm_compute. tauto.
  - auto.
Defined.

(** ** The prompt cache and the payload of a response *)

Section CacheProperties.

Variable uni_lower : pystr -> N -> pystr -> pystr.
Variable ollama_chat : list pystr -> pystr -> chat_outcome.

Local Abbreviation respond := (generate_response uni_lower ollama_chat).

Lemma respond_effect prompt g :
  (forall q v, response_cache g !! q = Some v ->
               response_cache (snd (respond prompt g)) !! q = Some v)
  /\ (is_Some (response_cache g !! prompt) ->
      requests (snd (respond prompt g)) = requests g)
  /\ (response_cache g !! prompt = None ->
      requests (snd (respond prompt g)) = requests g ++ [prompt]).
Proof.
  unfold generate_response.
  destruct (response_cache g !! prompt) as [cached|] eqn:Hc.
  - cbn. split; [auto|]. split; [reflexivity | discriminate].
  - split; [|split].
    + intros q v Hq.
      destruct (ollama_chat (requests g) prompt) as [r|]; [|exact Hq].
      destruct (clean_payload (response_payload r)); [|exact Hq].
      cbn. rewrite lookup_insert_ne; [exact Hq | congruence].
    + intros [x [=]].
    + intros _. destruct (ollama_chat (requests g) prompt) as [r|];
        [|reflexivity].
      now destruct (clean_payload (response_payload r)).
Qed.

(** X11. A call of [generate_response] never changes or removes an entry
    of the cache, and it sends at most one prompt to the model: none when
    the prompt is in the cache, the prompt itself and once otherwise. *)
Theorem cache_only_grows prompt g :
  let g' := snd (generate_response uni_lower ollama_chat prompt g) in
  (forall q v, response_cache g !! q = Some v ->
               response_cache g' !! q = Some v)
  /\ (is_Some (response_cache g !! prompt) -> requests g' = requests g)
  /\ (response_cache g !! prompt = None ->
      requests g' = requests g ++ [prompt]).
Proof. apply respond_effect. Qed.

(** X12. The cache holds cleaned text only: when every entry has the shape
    of a result of [_clean_response] (as in the empty cache of a new
    generator), so has every entry after a call of [generate_response]. *)
Theorem cache_holds_cleaned_text prompt g :
  (forall q v, response_cache g !! q = Some v -> tidy v) ->
  forall q v, response_cache (snd (respond prompt g)) !! q = Some v -> tidy v.
Proof.
  intros Hinv q v. unfold generate_response.
  destruct (response_cache g !! prompt) as [cached|] eqn:Hc; [apply Hinv|].
  destruct (ollama_chat (requests g) prompt) as [r|]; [|apply Hinv].
  destruct (response_payload r) as [s|]; [|apply Hinv].
  cbn. destruct (decide (prompt = q)) as [-> | Hne].
  - rewrite lookup_insert_eq. intros [= <-]. apply clean_tidy.
  - rewrite lookup_insert_ne by exact Hne. apply Hinv.
Qed.

End CacheProperties.

Lemma cache_only_grows_witness :
  let g := new_generator QueryBase (py "AI") in
  requests (snd (generate_response ascii_lower_only chat_unreachable
                   (py "hello") g))
  = requests g ++ [py "hello"].
Proof.
  apply (cache_only_grows ascii_lower_only chat_unreachable (py "hello")
           (new_generator QueryBase (py "AI"))).
  reflexivity.
Defined.

Lemma cache_holds_cleaned_text_witness :
  tidy (py "Hi there").
Proof.
  apply (cache_holds_cleaned_text ascii_lower_only
           (chat_always (py "Hi  there")) (py "hello")
           (new_generator QueryBase (py "AI")))
    with (q := py "hello").
  - intros q v H. unfold new_generator in H. cbn [response_cache] in H.
    rewrite lookup_empty in H. discriminate H.
  - reflexivity.
Defined.

(** *** The payload of a dictionary without a message *)

Lemma until_quote_spec (s g : pystr) :
  until_quote s = Some g ->
  ~ In quote g /\ exists b, s = g ++ quote :: b.
Proof.
  revert g. induction s as [|c r IH]; intros g; [discriminate|]. cbn.
  destruct (N.eqb_spec c quote) as [-> | Hc].
  - intros [= <-]. split; [easy|]. now exists r.
  - destruct (until_quote r) as [g'|]; [|discriminate].
    intros [= <-]. destruct (IH g' eq_refl) as (Hq & b & ->).
    split; [|now exists b]. intros [H | H]; [congruence | contradiction].
Qed.

Lemma starts_with_drop (p s : pystr) :
  starts_with p s = true -> s = p ++ drop (length p) s.
Proof.
  revert s. induction p as [|x p IH]; intros s; [reflexivity|].
  destruct s as [|c s]; [discriminate|]. cbn.
  rewrite andb_true_iff, N.eqb_eq. intros [-> H]. f_equal. auto.
Qed.

Lemma search_content_spec (s g : pystr) :
  search_content s = Some g ->
  ~ In quote g /\ exists a b, s = a ++ py "content='" ++ g ++ quote :: b.
Proof.
  induction s as [|c r IH].
  - cbn. discriminate.
  - cbn [search_content].
    destruct (starts_with (py "content='") (c :: r)) eqn:Es.
    + destruct (until_quote (drop 9 (c :: r))) as [g'|] eqn:Eu.
      * intros [= <-]. apply until_quote_spec in Eu as (Hq & b & Eb).
        split; [exact Hq|]. exists [], b.
        rewrite (starts_with_drop _ _ Es) at 1. cbn [app].
        change (length (py "content='")) with 9%nat. now rewrite Eb.
      * intros H. destruct (IH H) as (Hq & a & b & ->).
        split; [exact Hq|]. now exists (c :: a), b.
    + intros H. destruct (IH H) as (Hq & a & b & ->).
      split; [exact Hq|]. now exists (c :: a), b.
Qed.

Lemma search_content_absent (s : pystr) :
  contains (py "content='") s = false -> search_content s = None.
Proof.
  induction s as [|c r IH]; [reflexivity|].
  cbn [contains search_content]. rewrite orb_false_iff.
  intros [-> Hr]. auto.
Qed.

(** X13. For a response that is a dictionary without a [message] key
    (and without a [message] attribute), the payload comes from
    [str(response)]: it is the whole of it when it holds no [content='],
    and otherwise either the whole of it or a passage without quote that
    stands in it between a [content='] and a quote. *)
Theorem payload_of_plain_dictionary (r : response) :
  resp_attr_message r = None -> resp_is_dict r = true ->
  resp_key_message r = None ->
  (contains (py "content='") (resp_str r) = false ->
   response_payload r = PyStr (resp_str r))
  /\ exists x,
       response_payload r = PyStr x
       /\ (x = resp_str r
           \/ (~ In quote x
               /\ exists a b,
                    resp_str r = a ++ py "content='" ++ x ++ quote :: b)).
Proof.
  intros Ha Hd Hk. unfold response_payload. rewrite Ha, Hd, Hk. cbn.
  split.
  - intros H. now rewrite search_content_absent.
  - destruct (search_content (resp_str r)) as [g|] eqn:E.
    + exists g. split; [reflexivity|]. right. now apply search_content_spec.
    + exists (resp_str r). auto.
Qed.

Lemma payload_of_plain_dictionary_witness :
  response_payload
    {| resp_attr_message := None; resp_is_dict := true;
       resp_key_message := None; resp_str := py "{'done': True}" |}
  = PyStr (py "{'done': True}").
Proof.
  apply (proj1 (payload_of_plain_dictionary
                  {| resp_attr_message := None; resp_is_dict := true;
                     resp_key_message := None;
                     resp_str := py "{'done': True}" |}
                  eq_refl eq_refl eq_refl)).
  reflexivity.
Defined.

(** ** A model that cannot be reached *)

Section Unreachable.

Variable uni_decimal : N -> bool.
Variable uni_lower : pystr -> N -> pystr -> pystr.

Lemma lower_from_app (before a b : pystr) :
  exists x,
    lower_from uni_lower before (a ++ b)
    = x ++ lower_from uni_lower (rev a ++ before) b.
Proof.
  revert before. induction a as [|c a IH]; intros before; [now exists []|].
  destruct (IH (c :: before)) as (x & E).
  cbn [app lower_from rev]. rewrite E, <- !app_assoc.
  eexists. rewrite app_assoc. reflexivity.
Qed.

Lemma lower_from_ascii (b1 b2 s : pystr) :
  forallb (fun c => c <? 128) s = true ->
  lower_from uni_lower b1 s = lower_from uni_lower b2 s.
Proof.
  revert b1 b2. induction s as [|c s IH]; intros b1 b2; [reflexivity|].
  cbn [forallb lower_from]. rewrite andb_true_iff. intros [-> Hs].
  f_equal. now apply IH.
Qed.

Lemma lower_from_ascii_app (before p rest : pystr) :
  forallb (fun c => c <? 128) p = true ->
  lower_from uni_lower before (p ++ rest)
  = lower_from uni_lower [] p
    ++ lower_from uni_lower (rev p ++ before) rest.
Proof.
  revert before. induction p as [|c p IH]; intros before; [reflexivity|].
  cbn [forallb app lower_from rev]. rewrite andb_true_iff. intros [Hc Hp].
  rewrite Hc, (IH _ Hp), <- !app_assoc. cbn [app].
  now rewrite (lower_from_ascii [c] [] p Hp).
Qed.

Lemma lower_prefix_contains (kw p rest : pystr) :
  forallb (fun c => c <? 128) p = true ->
  contains kw (lower_from uni_lower [] p) = true ->
  contains kw (lower uni_lower (p ++ rest)) = true.
Proof.
  intros Hascii H. unfold lower. rewrite lower_from_ascii_app by exact Hascii.
  now apply contains_app_l.
Qed.

Lemma lower_suffix_contains (kw a sfx : pystr) :
  forallb (fun c => c <? 128) sfx = true ->
  contains kw (lower_from uni_lower [] sfx) = true ->
  contains kw (lower uni_lower (a ++ sfx)) = true.
Proof.
  intros Hascii H. unfold lower.
  destruct (lower_from_app [] a sfx) as (x & ->).
  apply contains_app_r. now rewrite (lower_from_ascii _ [] _ Hascii).
Qed.

Lemma preview_prompt_fallback f t :
  fallback_response uni_lower (preview_prompt f t) = fallback_bullets.
Proof.
  unfold fallback_response.
  destruct f; cbn [preview_prompt];
    rewrite lower_prefix_contains; try reflexivity; vm_compute; reflexivity.
Qed.

Lemma topic_prompt_fallback f point t :
  fallback_response uni_lower (topic_prompt f point t) = fallback_bullets.
Proof.
  unfold fallback_response.
  destruct f; cbn [topic_prompt]; rewrite !app_assoc;
    rewrite lower_suffix_contains; try reflexivity; vm_compute; reflexivity.
Qed.

Lemma extract_fallback_bullets :
  _extract_bullet_points uni_decimal fallback_bullets
  = [py "Important historical milestone"; py "Key development in AI";
     py "Significant innovation"].
Proof. vm_compute. reflexivity. Qed.

(** X14. With a model that cannot be reached, the preview slide of a new
    generator shows the same three points whatever the topic: the preview
    prompt holds the words [bullet points], so the fixed text of three
    points is what comes back, and there is no second prompt. One prompt
    was sent and nothing is cached. *)
Theorem preview_of_unreachable_model pptx_fault f t :
  let out :=
    generate_preview_slide uni_decimal uni_lower chat_unreachable pptx_fault
      f (new_generator f t) in
  fst out
  = Ok (py "PREVIEW",
        [py "Important historical milestone"; py "Key development in AI";
         py "Significant innovation"])
  /\ requests (snd out) = [preview_prompt f t]
  /\ response_cache (snd out) = ∅.
Proof.
  cbn zeta. unfold generate_preview_slide. cbn [topic new_generator].
  rewrite generate_response_raises by (apply lookup_empty || reflexivity).
  rewrite preview_prompt_fallback, extract_fallback_bullets.
  destruct f; repeat split; reflexivity.
Qed.

End Unreachable.

(** ** The topic slides *)

Lemma preview_paragraphs_no_colors pptx_fault i bullet_points :
  preview_paragraphs pptx_fault [] i bullet_points
  = ([], match bullet_points with
         | [] => None
         | _ :: _ => Some ZeroDivisionError
         end).
Proof. now destruct bullet_points. Qed.

Lemma bullet_slide_no_colors pptx_fault title bullet_points :
  text_fault_of pptx_fault InFrame title = None ->
  bullet_slide pptx_fault [] title bullet_points
  = ({| slide_header := title; slide_paragraphs := [] |},
     match bullet_points with
     | [] => None
     | _ :: _ => Some ZeroDivisionError
     end).
Proof.
  intros H. unfold bullet_slide, _create_header.
  now rewrite H, preview_paragraphs_no_colors.
Qed.


Section TopicSlides.

Variable uni_decimal : N -> bool.
Variable uni_lower : pystr -> N -> pystr -> pystr.
Variable ollama_chat : list pystr -> pystr -> chat_outcome.
Variable pptx_fault : text_place -> pystr -> option text_fault.

Local Abbreviation respond := (generate_response uni_lower ollama_chat).
Local Abbreviation topic_loop :=
  (topic_slides_loop uni_decimal uni_lower ollama_chat pptx_fault).

Lemma respond_requests prompt g :
  (length (requests (snd (respond prompt g))) <= S (length (requests g)))%nat.
Proof.
  destruct (respond_effect uni_lower ollama_chat prompt g) as (_ & Hhit & Hmiss).
  destruct (response_cache g !! prompt) as [v|] eqn:E.
  - rewrite Hhit by eauto. lia.
  - rewrite Hmiss by reflexivity. rewrite length_app. cbn. lia.
Qed.

Lemma shown_points_length (point : pystr) (sub : list pystr) :
  (3 <= length (if (length sub <? 3)%nat then templated_points point
                else sub))%nat.
Proof.
  destruct (Nat.ltb_spec (length sub) 3); [cbn; lia | assumption].
Qed.



(** X16. With a theme whose list of bullet colours is empty,
    [generate_topic_slides] on at least one point, when the library stores
    the first point as a header, raises [ZeroDivisionError] at the first
    paragraph of the first slide: that slide stays in the deck with its
    header and no paragraph, the other points are not asked about, and
    nothing is returned. *)
Theorem topic_slides_without_colours f point rest g :
  bullet_colors g = [] ->
  text_fault_of pptx_fault InFrame point = None ->
  let out :=
    generate_topic_slides uni_decimal uni_lower ollama_chat pptx_fault f
      (point :: rest) g in
  fst out = Raise ZeroDivisionError
  /\ slides (snd out)
     = slides g ++ [{| slide_header := point; slide_paragraphs := [] |}]
  /\ (length (requests (snd out)) <= S (length (requests g)))%nat.
Proof.
  intros Hcol Hpoint. cbn zeta. unfold generate_topic_slides.
  cbn [topic_slides_loop].
  pose proof (generate_response_frame uni_lower ollama_chat
                (topic_prompt f point (topic g)) g) as (_ & Hc1 & Hs1).
  pose proof (respond_requests (topic_prompt f point (topic g)) g) as Hr1.
  destruct (respond (topic_prompt f point (topic g)) g) as [rt g1].
  cbn [fst snd] in *.
  rewrite Hc1, Hcol, (bullet_slide_no_colors pptx_fault point _ Hpoint).
  pose proof (shown_points_length point
                (_extract_bullet_points uni_decimal rt)) as Hlen.
  destruct (if (length (_extract_bullet_points uni_decimal rt) <? 3)%nat
            then templated_points point
            else _extract_bullet_points uni_decimal rt) as [|b bs];
    [cbn in Hlen; lia|].
  cbn. rewrite Hs1. auto.
Qed.

(** X17. With a theme whose list of bullet colours is empty,
    [generate_preview_slide] returns only when there is no bullet point to
    show; with one point or more it raises [ZeroDivisionError]. *)
Theorem preview_without_colours f g :
  bullet_colors g = [] ->
  let out :=
    generate_preview_slide uni_decimal uni_lower ollama_chat pptx_fault f g in
  fst out = Raise ZeroDivisionError \/ fst out = Ok (py "PREVIEW", []).
Proof.
  intros Hcol. cbn zeta. unfold generate_preview_slide.
  assert (Htitle : text_fault_of pptx_fault InFrame (py "PREVIEW") = None)
    by reflexivity.
  pose proof (generate_response_frame uni_lower ollama_chat
                (preview_prompt f (topic g)) g) as (_ & Hc1 & _).
  destruct (respond (preview_prompt f (topic g)) g) as [r1 g1].
  cbn [snd] in Hc1.
  destruct (length (_extract_bullet_points uni_decimal r1) <? 3)%nat.
  - pose proof (generate_response_frame uni_lower ollama_chat
                  (retry_prompt f (topic g1)) g1) as (_ & Hc2 & _).
    destruct (respond (retry_prompt f (topic g1)) g1) as [r2 g2].
    cbn [snd] in Hc2.
    destruct (length (_extract_bullet_points uni_decimal r2) <? 3)%nat.
    + rewrite Hc2, Hc1, Hcol, (bullet_slide_no_colors _ _ _ Htitle).
      destruct (_extract_bullet_points uni_decimal r2); cbn; auto.
    + rewrite Hc2, Hc1, Hcol, (bullet_slide_no_colors _ _ _ Htitle).
      destruct (_extract_bullet_points uni_decimal r2); cbn; auto.
  - rewrite Hc1, Hcol, (bullet_slide_no_colors _ _ _ Htitle).
    destruct (_extract_bullet_points uni_decimal r1); cbn; auto.
Qed.


End TopicSlides.


Lemma topic_slides_without_colours_witness :
  fst (generate_topic_slides ascii_decimal_only ascii_lower_only
         chat_unreachable pptx_accepts_all QueryBase [py "A"; py "B"]
         {| topic := py "AI"; bullet_colors := []; response_cache := ∅;
            requests := []; slides := [] |})
  = Raise ZeroDivisionError.
Proof.
  apply (topic_slides_without_colours ascii_decimal_only ascii_lower_only
           chat_unreachable pptx_accepts_all QueryBase (py "A") [py "B"]
           {| topic := py "AI"; bullet_colors := []; response_cache := ∅;
              requests := []; slides := [] |}).
  - reflexivity.
  - reflexivity.
Defined.

Lemma preview_without_colours_witness :
  let out :=
    generate_preview_slide ascii_decimal_only ascii_lower_only
      chat_unreachable pptx_accepts_all QueryBase
      {| topic := py "AI"; bullet_colors := []; response_cache := ∅;
         requests := []; slides := [] |} in
  fst out = Raise ZeroDivisionError \/ fst out = Ok (py "PREVIEW", []).
Proof.
  apply (preview_without_colours ascii_decimal_only ascii_lower_only
           chat_unreachable pptx_accepts_all QueryBase
           {| topic := py "AI"; bullet_colors := []; response_cache := ∅;
              requests := []; slides := [] |}).
  reflexivity.
Defined.

Section UnreachableTopics.

Variable uni_decimal : N -> bool.
Variable uni_lower : pystr -> N -> pystr -> pystr.
Variable pptx_fault : text_place -> pystr -> option text_fault.

Lemma unreachable_topic_loop f points topics g :
  response_cache g = ∅ -> bullet_colors g <> [] ->
  Forall (fun point => text_fault_of pptx_fault InFrame point = None) points ->
  let out :=
    topic_slides_loop uni_decimal uni_lower chat_unreachable pptx_fault
      f points topics g in
  fst out
  = Ok (topics ++ List.map (fun point => (point, fallback_bullets)) points)
  /\ exists new_slides,
       slides (snd out) = slides g ++ new_slides
       /\ List.map (fun s => (slide_header s,
                              List.map p_text (slide_paragraphs s)))
                   new_slides
          = List.map
              (fun point =>
                 (point,
                  [bullet :: py " Important historical milestone";
                   bullet :: py " Example: Important historical milestone in real-world applications";
                   bullet :: py " Key development in AI";
                   bullet :: py " Example: Key development in AI in real-world applications";
                   bullet :: py " Significant innovation";
                   bullet :: py " Example: Significant innovation in real-world applications"]))
              points.
Proof.
  cbn zeta. intros Hcache Hcol Hhead. revert topics g Hcache Hcol.
  induction Hhead as [|point rest Hpoint Hrest IH]; intros topics g Hcache Hcol.
  - cbn. rewrite app_nil_r. split; [reflexivity|]. exists [].
    now rewrite app_nil_r.
  - cbn [topic_slides_loop].
    rewrite generate_response_raises
      by (rewrite ?Hcache; apply lookup_empty || reflexivity).
    rewrite topic_prompt_fallback, extract_fallback_bullets.
    cbn [length Nat.ltb Nat.leb].
    cbn [with_request bullet_colors].
    assert (Hacc : forall t,
              In t [py "Important historical milestone";
                    py "Key development in AI"; py "Significant innovation"] ->
              text_fault_of pptx_fault InParagraph (bullet :: space :: t)
              = None
              /\ text_fault_of pptx_fault InParagraph
                   (bullet :: space :: py "Example: " ++ t
                      ++ py " in real-world applications") = None)
      by (intros t [<- | [<- | [<- | []]]]; split; reflexivity).
    rewrite (bullet_slide_accepted pptx_fault (bullet_colors g) point _
               Hpoint Hcol Hacc).
    destruct (preview_paragraphs_accepted pptx_fault (bullet_colors g) 0 _
                Hcol Hacc) as (_ & _ & Htext).
    match goal with
    | |- context [topic_slides_loop _ _ _ _ _ rest ?t ?g'] =>
        destruct (IH t g') as (Hres & ns & Hslides & Hshown);
          [exact Hcache | exact Hcol |]
    end.
    rewrite Hres, Hslides. cbn [with_slide with_request slides].
    rewrite <- !app_assoc. split; [reflexivity|].
    eexists. split; [reflexivity|].
    cbn [List.map slide_header slide_paragraphs app]. rewrite Hshown, Htext.
    reflexivity.
Qed.

(** X18. With a model that cannot be reached, an empty cache, a theme
    with at least one bullet colour and points that the library stores as
    headers, every topic slide shows the same six lines, whatever the
    point and the topic: the prompt holds the words [bullet points], so
    that the fixed text of three points comes back for each point, and its
    three points are enough not to be replaced. Each pair returned holds
    that fixed text. *)
Theorem topic_slides_of_unreachable_model f points g :
  response_cache g = ∅ -> bullet_colors g <> [] ->
  Forall (fun point => text_fault_of pptx_fault InFrame point = None) points ->
  let out :=
    generate_topic_slides uni_decimal uni_lower chat_unreachable pptx_fault
      f points g in
  fst out = Ok (List.map (fun point => (point, fallback_bullets)) points)
  /\ exists new_slides,
       slides (snd out) = slides g ++ new_slides
       /\ List.map (fun s => (slide_header s,
                              List.map p_text (slide_paragraphs s)))
                   new_slides
          = List.map
              (fun point =>
                 (point,
                  [bullet :: py " Important historical milestone";
                   bullet :: py " Example: Important historical milestone in real-world applications";
                   bullet :: py " Key development in AI";
                   bullet :: py " Example: Key development in AI in real-world applications";
                   bullet :: py " Significant innovation";
                   bullet :: py " Example: Significant innovation in real-world applications"]))
              points.
Proof.
  intros Hcache Hcol Hhead.
  apply (unreachable_topic_loop f points [] g Hcache Hcol Hhead).
Qed.

End UnreachableTopics.

Lemma topic_slides_of_unreachable_model_witness :
  fst (generate_topic_slides ascii_decimal_only ascii_lower_only
         chat_unreachable pptx_accepts_all PdfToPptBackup [py "A"]
         (new_generator PdfToPptBackup (py "some text")))
  = Ok [(py "A", fallback_bullets)].
Proof.
  apply (topic_slides_of_unreachable_model ascii_decimal_only
           ascii_lower_only pptx_accepts_all PdfToPptBackup [py "A"]
           (new_generator PdfToPptBackup (py "some text"))).
  - reflexivity.
  - discriminate.
  - repeat constructor.
Defined.

(** ** The name of the file *)

Section FileName.

Variable uni_alnum : N -> bool.

Lemma is_alnum_underscore : is_alnum uni_alnum underscore = false.
Proof. reflexivity. Qed.

(** X19. The default file name is as long as the topic plus the eighteen
    characters of [_presentation.pptx], and the part made from the topic
    holds, of the ASCII characters, only letters, digits and the
    underscore: no separator of directories, no dot, no colon, no
    space. *)
Theorem default_path_is_safe (t : pystr) c :
  length (default_output_path uni_alnum t) = (length t + 18)%nat
  /\ (In c (safe_topic uni_alnum t) -> c < 128 ->
      48 <= c <= 57 \/ 65 <= c <= 90 \/ 97 <= c <= 122 \/ c = underscore).
Proof.
  split.
  - unfold default_output_path, safe_topic.
    now rewrite length_app, length_map.
  - unfold safe_topic. intros Hin Hc.
    apply in_map_iff in Hin as (d & <- & _).
    destruct (is_alnum uni_alnum d) eqn:E; [|now do 3 right].
    unfold is_alnum in E. apply N.ltb_lt in Hc. rewrite Hc in E.
    rewrite !orb_true_iff, !andb_true_iff, !N.leb_le in E.
    destruct E as [[E | E] | E]; auto.
Qed.

(** X20. Making the stem of the file name twice changes nothing more, so
    that a topic and the stem made from it give the same default file
    name: two topics that differ only in characters other than letters and
    digits are saved to the same file. *)
Theorem safe_topic_idempotent (t : pystr) :
  safe_topic uni_alnum (safe_topic uni_alnum t) = safe_topic uni_alnum t
  /\ default_output_path uni_alnum (safe_topic uni_alnum t)
     = default_output_path uni_alnum t.
Proof.
  assert (H : safe_topic uni_alnum (safe_topic uni_alnum t)
              = safe_topic uni_alnum t).
  { unfold safe_topic. rewrite map_map. apply map_ext. intros c.
    destruct (is_alnum uni_alnum c) eqn:E; [now rewrite E|].
    now rewrite is_alnum_underscore. }
  split; [exact H|]. unfold default_output_path. now rewrite H.
Qed.

End FileName.

Lemma default_path_is_safe_witness :
  48 <= 95 <= 57 \/ 65 <= 95 <= 90 \/ 97 <= 95 <= 122 \/ 95 = underscore.
Proof.
  apply (proj2 (default_path_is_safe (fun _ => false) (py "a/b") 95)).
  - vm_compute. tauto.
  - reflexivity.
Defined.

(** X21. [save] without a path, or with the empty path, writes to the
    default file name; so two generators whose topics give the same stem
    write to the same file, and get the same answer. *)
Theorem save_to_default_path uni_alnum prs_save (g1 g2 : generator) :
  safe_topic uni_alnum (topic g1) = safe_topic uni_alnum (topic g2) ->
  save uni_alnum prs_save (Some []) g1 = save uni_alnum prs_save None g1
  /\ save uni_alnum prs_save None g1 = save uni_alnum prs_save None g2
  /\ (forall path, save uni_alnum prs_save None g1 = Some path ->
                   path = safe_topic uni_alnum (topic g1)
                          ++ py "_presentation.pptx").
Proof.
  intros H. unfold save, default_output_path. rewrite H. cbn [nonempty].
  repeat split.
  intros path. destruct (prs_save _); [|discriminate]. now intros [= <-].
Qed.

Lemma save_to_default_path_witness :
  save (fun _ => false) (fun _ => true) None
       (new_generator QueryBase (py "a b"))
  = save (fun _ => false) (fun _ => true) None
         (new_generator QueryBase (py "a_b")).
Proof.
  apply (save_to_default_path (fun _ => false) (fun _ => true)
           (new_generator QueryBase (py "a b"))
           (new_generator QueryBase (py "a_b"))).
  reflexivity.
Defined.

(** X22. For a document whose first page holds a character that is not
    whitespace, the constructor gives an extractor that is not marked as
    scanned and whose text is the texts of the pages joined by newlines;
    the document was opened three times. *)
Theorem constructor_of_text_document {image : Type}
    (fitz_open : pystr -> option (list pystr))
    (convert_from_path : pystr -> option (list image))
    (image_to_string : image -> option pystr) path first_page rest :
  fitz_open path = Some (first_page :: rest) ->
  forallb is_space first_page = false ->
  let out :=
    new_PDFExtractor fitz_open convert_from_path image_to_string path in
  fst out = Ok {| pdf_path := path; text := join_nl (first_page :: rest);
                  is_scanned := false |}
  /\ count_fitz_opens (snd out) = 3%nat.
Proof.
  intros Hopen Hfirst. cbn zeta. unfold new_PDFExtractor.
  rewrite (is_scanned_pdf_pages _ _ _ _ Hopen), Hfirst. cbn [io_bind].
  rewrite (extract_text_normal _ convert_from_path image_to_string
             _ _ _ Hopen Hfirst).
  split; reflexivity.
Qed.

Lemma constructor_of_text_document_witness :
  let '(fitz_open, convert, ocr) := text_world (py "hello") in
  fst (new_PDFExtractor fitz_open convert ocr (py "a.pdf"))
  = Ok {| pdf_path := py "a.pdf"; text := py "hello"; is_scanned := false |}.
Proof.
  apply (constructor_of_text_document
           (fst (fst (text_world (py "hello"))))
           (snd (fst (text_world (py "hello"))))
           (snd (text_world (py "hello")))
           (py "a.pdf") (py "hello") []); reflexivity.
Defined.
